(** * DataGenerator: pattern files of the LizardFS test utilities

    A shallow embedding of [src/utils/data_generator.h] and proofs about it.

    The class writes files of the following format:
    - the first 8 bytes hold the size of the file,
    - then comes a sequence of 8-byte blocks, the block at file offset [o]
      holding [(o + 0x0807060504030201) mod 2^64],
    - all numbers are stored big endian, and the last block is cut where
      the file ends.

    Integers are modelled as [Z] with the conversions of the C++ types
    written out, buffers ([std::vector<char>]) as [list byte], the file
    system as a finite map from names to contents, and exceptions and
    assertion failures as an error monad. *)

From Stdlib Require Import ZArith Lia.
From Stdlib Require Import Strings.Byte.
From stdpp Require Import gmap strings list pretty.

Local Open Scope Z_scope.

(** ** Machine integers *)

(** Conversion to [uint64_t] (and to [size_t], which is the same type on
    the LP64 targets the utility is built for). *)
Definition u64 (z : Z) : Z := z mod 2 ^ 64.

(** Conversion to [off_t] (and to [ssize_t]), a signed 64-bit integer. *)
Definition s64 (z : Z) : Z := (z + 2 ^ 63) mod 2 ^ 64 - 2 ^ 63.

(** The largest [off_t]; no file is longer than this. *)
Definition OFF_MAX : Z := 2 ^ 63 - 1.

(** [buffer.size()] *)
Definition size_of (buffer : list byte) : Z := Z.of_nat (length buffer).

(** ** Bytes *)

#[global] Instance byte_eq_dec : EqDecision byte := Byte.byte_eq_dec.
#[global] Instance byte_inhabited : Inhabited byte := populate x00.

Definition Z_of_byte (b : byte) : Z := Z.of_N (Byte.to_N b).

Definition byte_of_Z (z : Z) : byte :=
  default x00 (Byte.of_N (Z.to_N (z mod 256))).

(** The bytes in memory of the [uint64_t] that [htobe64 v] returns: the
    most significant byte of [v] first. *)
Definition htobe64 (v : Z) : list byte :=
  [ byte_of_Z (v ≫ 56); byte_of_Z (v ≫ 48); byte_of_Z (v ≫ 40);
    byte_of_Z (v ≫ 32); byte_of_Z (v ≫ 24); byte_of_Z (v ≫ 16);
    byte_of_Z (v ≫ 8); byte_of_Z v ].

(** [be64toh] of the [uint64_t] whose bytes in memory are [bs]. *)
Definition be64toh (bs : list byte) : Z :=
  foldl (λ acc b, acc * 256 + Z_of_byte b) 0 bs.

(** ** Exceptions, assertions and undefined behaviour *)

Inductive exn : Type :=
| length_error (what : string)
| invalid_argument (what : string).

Inductive outcome (A : Type) : Type :=
| Ret (a : A)            (* normal return *)
| Throw (e : exn)        (* a C++ exception reaches the caller *)
| Abort (msg : string)   (* a utils_*assert failed or utils_mabort ran *)
| OutOfBounds            (* memcpy read outside its source vector *)
| OutOfFuel.             (* the loop did not finish within the fuel *)
Arguments Ret {A} a.
Arguments Throw {A} e.
Arguments Abort {A} msg.
Arguments OutOfBounds {A}.
Arguments OutOfFuel {A}.

#[global] Instance outcome_ret : MRet outcome := @Ret.
#[global] Instance outcome_bind : MBind outcome := λ A B f m,
  match m with
  | Ret a => f a
  | Throw e => Throw e
  | Abort msg => Abort msg
  | OutOfBounds => OutOfBounds
  | OutOfFuel => OutOfFuel
  end.

(** Modelled from the spec: the macros of utils/asserts.h, which is not
    among the sources.  They are process-fatal assertions:
    [utils_massert(e)] and [utils_passert(e)] abort unless [e] holds,
    [utils_zassert(e)] is [utils_passert(e == 0)], and [utils_mabort(msg)]
    aborts.  The text of the failed expression stands for the message. *)
Definition utils_massert (e : bool) (text : string) : outcome unit :=
  if e then Ret () else Abort text.
Definition utils_passert (e : bool) (text : string) : outcome unit :=
  if e then Ret () else Abort text.
Definition utils_mabort {A} (msg : string) : outcome A := Abort msg.

(** ** Buffers *)

(** [std::vector<char> v(n)]: [n] zero bytes. *)
Definition vector (n : Z) : list byte := replicate (Z.to_nat n) x00.

(** [v.resize(n)] *)
Definition vector_resize (n : Z) (v : list byte) : list byte :=
  resize (Z.to_nat n) x00 v.

(** [memcpy(dst.data(), src.data() + start, n)]: the first [n] bytes of
    [dst] are replaced.  Reading outside [src] is undefined behaviour. *)
Definition memcpy (dst src : list byte) (start n : Z) : outcome (list byte) :=
  if decide (0 ≤ start ∧ start + n ≤ size_of src ∧ n ≤ size_of dst) then
    Ret (take (Z.to_nat n) (drop (Z.to_nat start) src) ++ drop (Z.to_nat n) dst)
  else OutOfBounds.

(** [memcmp(a, b, n)]: the difference of the first bytes that differ, as
    unsigned chars, and 0 when there is none among the first [n]. *)
Fixpoint memcmp (a b : list byte) (n : nat) {struct n} : Z :=
  match n, a, b with
  | S n', x :: a', y :: b' =>
      if decide (x = y) then memcmp a' b' n' else Z_of_byte x - Z_of_byte y
  | _, _, _ => 0
  end.

(** ** The offset→block function *)

(** [blocks[i] = block] on a buffer seen as an array of 8-byte words. *)
Definition store_block (buffer : list byte) (i : nat) (block : list byte)
  : list byte :=
  take (8 * i) buffer ++ block ++ drop (8 * i + 8) buffer.

(** The loop of [fillAlignedBufferWithProperData]; [n] iterations are
    left, [i] is the loop counter.  [0x0807060504030201ULL + offset] and
    [offset += sizeof(BlockType)] are computed in [uint64_t]. *)
Fixpoint fill_blocks (n i : nat) (offset : Z) (buffer : list byte)
  : list byte :=
  match n with
  | O => buffer
  | S n' =>
      let block := htobe64 (u64 (0x0807060504030201 + u64 offset)) in
      let buffer := store_block buffer i block in
      fill_blocks n' (S i) (s64 (u64 offset + 8)) buffer
  end.

Definition fillAlignedBufferWithProperData (buffer : list byte) (offset : Z)
  : outcome (list byte) :=
  utils_massert (bool_decide (u64 offset mod 8 = 0))
    "offset % sizeof(BlockType) == 0";;
  utils_massert (bool_decide (size_of buffer mod 8 = 0))
    "buffer.size() % sizeof(BlockType) == 0";;
  Ret (fill_blocks (Z.to_nat (size_of buffer / 8)) 0 offset buffer).

(** [(offset / 8) * 8] on [off_t]: C++ division truncates towards zero. *)
Definition alignedOffset (offset : Z) : Z := (offset ÷ 8) * 8.

(** [16 + (size / 8) * 8] on [size_t]. *)
Definition alignedBufferSize (size : Z) : Z := u64 (16 + (size / 8) * 8).

Definition fillBufferWithProperData (buffer : list byte) (offset : Z)
  : outcome (list byte) :=
  let size := size_of buffer in
  if bool_decide (Z.rem offset 8 = 0) && bool_decide (size mod 8 = 0) then
    fillAlignedBufferWithProperData buffer offset
  else
    let alignedOffset := alignedOffset offset in
    let alignedBuffer := vector (alignedBufferSize size) in
    alignedBuffer ← fillAlignedBufferWithProperData alignedBuffer alignedOffset;
    memcpy buffer alignedBuffer (offset - alignedOffset) size.

(** ** Files *)

(** The file system maps the names of the regular files to their contents.
    A descriptor remembers the file it was opened on and its position; the
    utility has at most one descriptor open at a time.  The calls behave as
    POSIX asks of regular files on a device that does not fail: [write] and
    [read] transfer all the bytes there are, and [close] returns 0. *)
Record fd_t : Type := { fd_name : string; fd_pos : Z }.

(** [open(name, O_WRONLY | O_CREAT | O_TRUNC, 0644)] *)
Definition open_creat_trunc (fs : gmap string (list byte)) (name : string)
  : gmap string (list byte) * option fd_t :=
  (<[name := []]> fs, Some {| fd_name := name; fd_pos := 0 |}).

(** [open(name, O_WRONLY)] and [open(name, O_RDONLY)]: [None] stands for
    the descriptor -1. *)
Definition open_existing (fs : gmap string (list byte)) (name : string)
  : option fd_t :=
  match fs !! name with
  | Some _ => Some {| fd_name := name; fd_pos := 0 |}
  | None => None
  end.

(** [stat(name, &fileInformation)]: [st_size] when the call returns 0. *)
Definition stat (fs : gmap string (list byte)) (name : string) : option Z :=
  match fs !! name with
  | Some content => Some (s64 (size_of content))
  | None => None
  end.

(** [write(fd, buf.data(), count)]: the new file system, the moved
    descriptor and the returned number of bytes. *)
Definition write (fs : gmap string (list byte)) (fd : fd_t)
    (buf : list byte) (count : Z) : gmap string (list byte) * fd_t * Z :=
  match fs !! fd_name fd with
  | None => (fs, fd, -1)
  | Some content =>
      let data := take (Z.to_nat count) buf in
      let pos := Z.to_nat (fd_pos fd) in
      let content :=
        take pos content ++ replicate (pos - length content) x00 ++
        data ++ drop (pos + length data) content in
      (<[fd_name fd := content]> fs,
       {| fd_name := fd_name fd; fd_pos := fd_pos fd + size_of data |},
       size_of data)
  end.

(** [read(fd, buf, count)]: the bytes read (their number is the value
    returned) and the moved descriptor. *)
Definition read (fs : gmap string (list byte)) (fd : fd_t) (count : Z)
  : list byte * fd_t :=
  match fs !! fd_name fd with
  | None => ([], fd)
  | Some content =>
      let data := take (Z.to_nat count) (drop (Z.to_nat (fd_pos fd)) content) in
      (data, {| fd_name := fd_name fd; fd_pos := fd_pos fd + size_of data |})
  end.

(** ** Text of the error messages *)

(** [std::to_string] of an unsigned integer, and [ss << i]. *)
Definition to_string (z : Z) : string := pretty (Z.to_N z).

Definition newline : string := String (Ascii.ascii_of_nat 10) EmptyString.

Definition hex_digit (d : Z) : Ascii.ascii :=
  default Ascii.zero (String.get (Z.to_nat d) "0123456789abcdef").

(** [ss << std::hex << std::setfill('0') << std::setw(2)
       << static_cast<int>(static_cast<unsigned char>(c)) << " "] *)
Definition hex_byte (c : byte) : string :=
  String (hex_digit (Z_of_byte c / 16))
    (String (hex_digit (Z_of_byte c mod 16)) " ").

(** [for (size_t j = i; j < bytesToRead && j < i + 32; ++j) ss << ...] *)
Definition dump (buffer : list byte) (i bytesToRead : nat) : string :=
  foldr (λ j rest, hex_byte (buffer !!! j) +:+ rest) ""
        (seq i (Nat.min bytesToRead (i + 32) - i)).

Definition mismatch_message (i bytesToRead : nat)
    (properBuffer actualBuffer : list byte) : string :=
  "data mismatch at offset " +:+ to_string (Z.of_nat i) +:+
  ". Expected/actual:" +:+ newline +:+
  dump properBuffer i bytesToRead +:+ newline +:+
  dump actualBuffer i bytesToRead.

(** ** DataGenerator *)

Section DataGenerator.

(** [UtilsConfiguration::blockSize()]: utils/configuration.h is not among
    the sources, so the block size is a parameter of the class. *)
Variable blockSize : Z.

(** The loop of [fillFileWithProperData]. *)
Fixpoint write_loop (fuel : nat) (fs : gmap string (list byte)) (fd : fd_t)
    (size currentOffset : Z) (buffer : list byte)
  : outcome (gmap string (list byte)) :=
  if bool_decide (size > 0) then
    match fuel with
    | O => OutOfFuel
    | S fuel =>
        let bytesToWrite :=
          if bool_decide (size > size_of buffer) then size_of buffer else size in
        let buffer := vector_resize bytesToWrite buffer in
        buffer ← fillBufferWithProperData buffer currentOffset;
        let '(fs, fd, written) := write fs fd buffer bytesToWrite in
        utils_passert (bool_decide (written = s64 bytesToWrite))
          "write(fd, buffer.data(), bytesToWrite) == (ssize_t)bytesToWrite";;
        write_loop fuel fs fd (u64 (size - bytesToWrite))
          (s64 (u64 currentOffset + bytesToWrite)) buffer
    end
  else Ret fs.

Definition fillFileWithProperData (fuel : nat)
    (fs : gmap string (list byte)) (fd : option fd_t) (size : Z)
  : outcome (gmap string (list byte)) :=
  utils_massert (bool_decide (is_Some fd)) "fd >= 0";;
  match fd with
  | None => Abort "fd >= 0"
  | Some fd =>
      (* Write the size of the file *)
      let serializedSize := htobe64 size in
      utils_massert (bool_decide (8 ≤ size)) "size >= sizeof(serializedSize)";;
      let '(fs, fd, written) := write fs fd serializedSize 8 in
      utils_passert (bool_decide (written = 8))
        "write(fd, &serializedSize, sizeof(serializedSize)) == sizeof(serializedSize)";;
      (* Write the data *)
      let size := u64 (size - 8) in
      let currentOffset := 8 in
      let buffer := vector blockSize in
      write_loop fuel fs fd size currentOffset buffer
  end.

Definition createFile (fuel : nat) (fs : gmap string (list byte))
    (name : string) (size : Z) : outcome (gmap string (list byte)) :=
  let '(fs, fd) := open_creat_trunc fs name in
  utils_passert (bool_decide (is_Some fd)) "fd >= 0";;
  fillFileWithProperData fuel fs fd size.

Definition overwriteFile (fuel : nat) (fs : gmap string (list byte))
    (name : string) : outcome (gmap string (list byte)) :=
  match stat fs name with
  | None => Abort "stat(name.c_str(), &fileInformation)"
  | Some st_size =>
      let fd := open_existing fs name in
      utils_passert (bool_decide (is_Some fd)) "fd >= 0";;
      fillFileWithProperData fuel fs fd (u64 st_size)
  end.

(** The scan for the corrupted byte in [validateFile]; [n] iterations are
    left, [i] is the loop counter. *)
Fixpoint find_corrupted (n i : nat) (error : string) (bytesToRead : nat)
    (actualBuffer properBuffer : list byte) : outcome unit :=
  match n with
  | O => utils_mabort "memcmp returned non-zero, but there is no difference"
  | S n =>
      if decide (actualBuffer !!! i ≠ properBuffer !!! i) then
        Throw (invalid_argument
                 (error +:+ mismatch_message i bytesToRead properBuffer actualBuffer))
      else find_corrupted n (S i) error bytesToRead actualBuffer properBuffer
  end.

(** The loop of [validateFile]. *)
Fixpoint check_loop (fuel : nat) (fs : gmap string (list byte)) (fd : fd_t)
    (error : string) (size currentOffset : Z)
    (actualBuffer properBuffer : list byte) : outcome unit :=
  if bool_decide (size > 0) then
    match fuel with
    | O => OutOfFuel
    | S fuel =>
        let bytesToRead :=
          if bool_decide (size > size_of properBuffer)
          then size_of properBuffer else size in
        let properBuffer := vector_resize bytesToRead properBuffer in
        properBuffer ← fillBufferWithProperData properBuffer currentOffset;
        let '(data, fd) := read fs fd bytesToRead in
        let actualBuffer := data ++ drop (length data) actualBuffer in
        utils_passert (bool_decide (size_of data = s64 bytesToRead))
          "read(fd, actualBuffer.data(), bytesToRead) == (ssize_t)bytesToRead";;
        let size := u64 (size - bytesToRead) in
        (* memcmp is very fast, use it to check if everything is OK *)
        if bool_decide
             (memcmp actualBuffer properBuffer (Z.to_nat bytesToRead) = 0)
        then
          check_loop fuel fs fd error size
            (s64 (u64 currentOffset + bytesToRead)) actualBuffer properBuffer
        else
          (* if not -- find the byte which is corrupted *)
          find_corrupted (Z.to_nat bytesToRead) 0 error (Z.to_nat bytesToRead)
            actualBuffer properBuffer
    end
  else Ret ().

Definition validateFile (fuel : nat) (fs : gmap string (list byte))
    (name : string) : outcome unit :=
  let fd := open_existing fs name in
  utils_passert (bool_decide (is_Some fd)) "fd != -1";;
  match fd, stat fs name with
  | Some fd, Some st_size =>
      (* Check the file size *)
      let actualSize := u64 st_size in
      let '(header, fd) := read fs fd 8 in
      if bool_decide (size_of header ≠ 8) then
        (* The file if too short, so the first bytes are corrupted. *)
        Throw (length_error
                 ("file too short (" +:+ to_string actualSize +:+ " bytes)"))
      else
        let expectedSize := be64toh header in
        let error :=
          if bool_decide (expectedSize ≠ u64 st_size) then
            "file should be " +:+ to_string expectedSize +:+
            " bytes long, but is " +:+ to_string actualSize +:+
            " bytes long" +:+ newline
          else "" in
        (* Check the data *)
        let currentOffset := 8 in
        let size := u64 (actualSize - 8) in
        let actualBuffer := vector blockSize in
        let properBuffer := vector blockSize in
        check_loop fuel fs fd error size currentOffset actualBuffer properBuffer;;
        if bool_decide (error ≠ "") then
          Throw (length_error (error +:+ "The rest of the file is OK"))
        else Ret ()
  | _, _ => Abort "stat(name.c_str(), &fileInformation)"
  end.

End DataGenerator.

(** ** The format of a pattern file, as the header comment of the class
    gives it *)

(** The 8-byte block that starts at the file offset [o]. *)
Definition pattern_block (o : Z) : list byte :=
  htobe64 ((o + 0x0807060504030201) mod 2 ^ 64).

(** The byte at the file offset [p]: it lies in the block that starts at
    the multiple of 8 below [p]. *)
Definition pattern_byte (p : Z) : byte :=
  pattern_block (p - p mod 8) !!! Z.to_nat (p mod 8).

(** The [n] bytes from the file offset [o] on. *)
Definition pattern (o n : Z) : list byte := pattern_byte <$> seqZ o n.

(** The whole file of [size] bytes. *)
Definition pattern_file (size : Z) : list byte :=
  htobe64 size ++ pattern 8 (size - 8).

(** Block [i] of the payload of a file, cut where the file ends. *)
Definition payload_block (content : list byte) (i : Z) : list byte :=
  take 8 (drop (Z.to_nat (8 + 8 * i)) content).

(** The index of the last payload block of a file longer than 8 bytes. *)
Definition last_block_index (content : list byte) : Z :=
  (size_of content - 8 - 1) / 8.

(** The bytes of [l] as [validateFile] prints them. *)
Definition hex_dump (l : list byte) : string :=
  foldr (λ c rest, hex_byte c +:+ rest) "" l.

(** The text of the data-mismatch error for the index [i] and the bytes
    shown. *)
Definition data_mismatch (i : Z) (expected actual : list byte) : string :=
  "data mismatch at offset " +:+ to_string i +:+
  ". Expected/actual:" +:+ newline +:+
  hex_dump expected +:+ newline +:+ hex_dump actual.

(** The message of the abort that follows the scan in [validateFile]. *)
Definition no_difference : string :=
  "memcmp returned non-zero, but there is no difference".

(** The text of the size-mismatch warning. *)
Definition size_warning (expectedSize actualSize : Z) : string :=
  "file should be " +:+ to_string expectedSize +:+
  " bytes long, but is " +:+ to_string actualSize +:+
  " bytes long" +:+ newline.

(** * Proofs *)

(** ** Integers and bytes *)

(** Goals about the conversions: expose the constants, then linear
    arithmetic over the quotients and remainders. *)
Ltac int_arith :=
  unfold u64, s64, OFF_MAX, size_of in *;
  change (2 ^ 64) with 18446744073709551616 in *;
  change (2 ^ 63) with 9223372036854775808 in *;
  Z.div_mod_to_equations; lia.

Lemma u64_s64 z : u64 (s64 z) = u64 z.
Proof. int_arith. Qed.

Lemma u64_small z : 0 ≤ z < 2 ^ 64 → u64 z = z.
Proof. int_arith. Qed.

Lemma s64_small z : - 2 ^ 63 ≤ z ≤ OFF_MAX → s64 z = z.
Proof. int_arith. Qed.

Lemma Z_of_byte_range b : 0 ≤ Z_of_byte b < 256.
Proof. unfold Z_of_byte. pose proof (Byte.to_N_bounded b). lia. Qed.

Lemma Z_of_byte_of_Z z : Z_of_byte (byte_of_Z z) = z mod 256.
Proof.
  unfold Z_of_byte, byte_of_Z.
  assert (Hr : 0 ≤ z mod 256 < 256) by (apply Z.mod_pos_bound; lia).
  destruct (Byte.of_N (Z.to_N (z mod 256))) as [b|] eqn:Hb; simpl.
  - apply Byte.to_of_N in Hb. rewrite Hb. lia.
  - apply Byte.of_N_None_iff in Hb. lia.
Qed.

Lemma byte_of_Z_of_byte b : byte_of_Z (Z_of_byte b) = b.
Proof.
  unfold byte_of_Z. pose proof (Z_of_byte_range b) as Hr.
  rewrite Z.mod_small by done. unfold Z_of_byte.
  by rewrite N2Z.id, Byte.of_to_N.
Qed.

Lemma length_htobe64 v : length (htobe64 v) = 8%nat.
Proof. done. Qed.

Lemma be64toh_htobe64 v : be64toh (htobe64 v) = v mod 2 ^ 64.
Proof.
  unfold be64toh, htobe64. simpl. rewrite !Z_of_byte_of_Z, !Z.shiftr_div_pow2 by lia.
  change (2 ^ 56) with 72057594037927936.
  change (2 ^ 48) with 281474976710656.
  change (2 ^ 40) with 1099511627776.
  change (2 ^ 32) with 4294967296.
  change (2 ^ 24) with 16777216.
  change (2 ^ 16) with 65536.
  change (2 ^ 8) with 256.
  change (2 ^ 64) with 18446744073709551616.
  Z.div_mod_to_equations. lia.
Qed.

(** ** The pattern *)

Lemma length_pattern o n : length (pattern o n) = Z.to_nat n.
Proof. unfold pattern. by rewrite length_fmap, length_seqZ. Qed.

Lemma size_of_pattern o n : 0 ≤ n → size_of (pattern o n) = n.
Proof. intros. unfold size_of. rewrite length_pattern. lia. Qed.

Lemma pattern_app o a b :
  0 ≤ a → 0 ≤ b → pattern o (a + b) = pattern o a ++ pattern (o + a) b.
Proof. intros. unfold pattern. by rewrite seqZ_app, fmap_app. Qed.

Lemma pattern_nil o n : n ≤ 0 → pattern o n = [].
Proof. intros. unfold pattern. by rewrite seqZ_nil. Qed.

Lemma pattern_lookup o n (i : nat) :
  Z.of_nat i < n → pattern o n !! i = Some (pattern_byte (o + Z.of_nat i)).
Proof.
  intros. unfold pattern. by rewrite list_lookup_fmap, lookup_seqZ_lt.
Qed.

Lemma take_pattern o n k : 0 ≤ k ≤ n → take (Z.to_nat k) (pattern o n) = pattern o k.
Proof.
  intros. replace n with (k + (n - k)) by lia.
  rewrite pattern_app by lia.
  by rewrite take_app_length' by (rewrite length_pattern; lia).
Qed.

Lemma drop_pattern o n k :
  0 ≤ k ≤ n → drop (Z.to_nat k) (pattern o n) = pattern (o + k) (n - k).
Proof.
  intros. replace n with (k + (n - k)) at 1 by lia.
  rewrite pattern_app by lia.
  by rewrite drop_app_length' by (rewrite length_pattern; lia).
Qed.

(** The pattern only depends on the offset as a [uint64_t]. *)
Lemma pattern_byte_u64 p : pattern_byte (u64 p) = pattern_byte p.
Proof.
  unfold pattern_byte, pattern_block. f_equal; [f_equal|f_equal]; int_arith.
Qed.

Lemma pattern_byte_congr p q : u64 p = u64 q → pattern_byte p = pattern_byte q.
Proof.
  intros Heq. by rewrite <- (pattern_byte_u64 p), Heq, pattern_byte_u64.
Qed.

Lemma pattern_congr o o' n : u64 o = u64 o' → pattern o n = pattern o' n.
Proof.
  intros Heq. unfold pattern.
  rewrite <- (Z.add_0_r o), <- (Z.add_0_r o'), <- !fmap_add_seqZ, <- !list_fmap_compose.
  apply list_fmap_ext. intros i x _. simpl. apply pattern_byte_congr.
  revert Heq. int_arith.
Qed.

(** An aligned block holds the bytes of its eight offsets. *)
Lemma pattern_8_aligned o : o mod 8 = 0 → pattern o 8 = pattern_block o.
Proof.
  intros Ho. unfold pattern.
  assert (Hk : ∀ k, 0 ≤ k < 8 →
            pattern_byte (o + k) = pattern_block o !!! Z.to_nat k).
  { intros k Hk. unfold pattern_byte.
    replace ((o + k) mod 8) with k by (Z.div_mod_to_equations; lia).
    by replace (o + k - k) with o by lia. }
  change (seqZ o 8) with
    [0 + o; 1 + o; 2 + o; 3 + o; 4 + o; 5 + o; 6 + o; 7 + o].
  rewrite !(Z.add_comm _ o). simpl. by rewrite !Hk by lia.
Qed.

(** ** The offset→block function *)

Lemma block_is_pattern_block o :
  htobe64 (u64 (0x0807060504030201 + u64 o)) = pattern_block o.
Proof. unfold pattern_block. f_equal. int_arith. Qed.

Lemma fill_blocks_spec n : ∀ i o buffer,
  o mod 8 = 0 →
  (8 * (i + n) ≤ length buffer)%nat →
  fill_blocks n i o buffer =
    take (8 * i) buffer ++ pattern o (8 * Z.of_nat n) ++
    drop (8 * (i + n)) buffer.
Proof.
  induction n as [|n IH]; intros i o buffer Ho Hlen.
  - rewrite pattern_nil by lia.
    replace (8 * (i + 0))%nat with (8 * i)%nat by lia.
    cbn [fill_blocks app]. by rewrite take_drop.
  - cbn [fill_blocks]. rewrite block_is_pattern_block.
    rewrite IH; cycle 1.
    { int_arith. }
    { unfold store_block. rewrite !length_app, length_take, length_drop.
      unfold pattern_block. rewrite length_htobe64. lia. }
    rewrite (pattern_congr _ (o + 8)) by int_arith.
    replace (8 * Z.of_nat (S n)) with (8 + 8 * Z.of_nat n) by lia.
    rewrite (pattern_app o) by lia. rewrite pattern_8_aligned by done.
    unfold store_block.
    assert (Hl : length (take (8 * i) buffer ++ pattern_block o) = (8 * S i)%nat).
    { rewrite length_app, length_take. unfold pattern_block.
      rewrite length_htobe64. lia. }
    rewrite !(assoc_L (++)).
    rewrite (take_app_length' _ _ _ (eq_sym Hl)).
    rewrite <- !(assoc_L (++)). do 2 f_equal.
    replace (8 * (S i + n))%nat with (8 * S i + 8 * n)%nat by lia.
    rewrite !(assoc_L (++)), <- drop_drop, (drop_app_length' _ _ _ (eq_sym Hl)).
    rewrite drop_drop. do 2 f_equal. lia.
Qed.

Lemma fillAligned_spec buffer o :
  o mod 8 = 0 → size_of buffer mod 8 = 0 →
  fillAlignedBufferWithProperData buffer o = Ret (pattern o (size_of buffer)).
Proof.
  intros Ho Hs. unfold fillAlignedBufferWithProperData.
  rewrite !bool_decide_eq_true_2 by (done || int_arith). simpl.
  rewrite fill_blocks_spec by (done || int_arith).
  rewrite Z2Nat.id by int_arith.
  replace (8 * (size_of buffer / 8)) with (size_of buffer) by int_arith.
  rewrite drop_ge by int_arith. by rewrite app_nil_r.
Qed.

Lemma size_of_vector n : 0 ≤ n → size_of (vector n) = n.
Proof. intros. unfold size_of, vector. rewrite length_replicate. lia. Qed.

Lemma alignedOffset_nonneg o : 0 ≤ o → alignedOffset o = o - o mod 8.
Proof.
  intros. unfold alignedOffset. rewrite Z.quot_div_nonneg by lia.
  Z.div_mod_to_equations; lia.
Qed.

Lemma alignedBufferSize_small size :
  0 ≤ size < 2 ^ 64 - 16 → alignedBufferSize size = 16 + size / 8 * 8.
Proof. intros. unfold alignedBufferSize. apply u64_small. int_arith. Qed.

(** Both paths of the function produce the bytes of the offsets asked for. *)
Lemma fillBuffer_spec buffer o :
  0 ≤ o → size_of buffer < 2 ^ 64 - 16 →
  fillBufferWithProperData buffer o = Ret (pattern o (size_of buffer)).
Proof.
  intros Ho Hs. unfold fillBufferWithProperData.
  assert (Hsz : 0 ≤ size_of buffer) by (unfold size_of; lia).
  destruct (bool_decide (Z.rem o 8 = 0) && bool_decide (size_of buffer mod 8 = 0))
    eqn:Hal.
  - apply andb_prop in Hal as [H1 H2].
    apply bool_decide_eq_true_1 in H1, H2.
    rewrite Z.rem_mod_nonneg in H1 by lia. by apply fillAligned_spec.
  - clear Hal. rewrite alignedOffset_nonneg, alignedBufferSize_small by lia.
    set (N := 16 + size_of buffer / 8 * 8).
    assert (HN : 0 ≤ N ∧ N mod 8 = 0 ∧ o mod 8 + size_of buffer ≤ N)
      by (subst N; Z.div_mod_to_equations; lia).
    rewrite fillAligned_spec;
      [| Z.div_mod_to_equations; lia | rewrite size_of_vector; lia ].
    rewrite size_of_vector by lia. simpl.
    unfold memcpy. rewrite size_of_pattern by lia.
    rewrite decide_True by (Z.div_mod_to_equations; lia).
    f_equal. rewrite (drop_ge buffer) by (unfold size_of; lia).
    rewrite app_nil_r, drop_pattern, take_pattern by (Z.div_mod_to_equations; lia).
    f_equal. lia.
Qed.

(** ** Files *)

Lemma size_of_app l k : size_of (l ++ k) = size_of l + size_of k.
Proof. unfold size_of. rewrite length_app. lia. Qed.

Lemma size_of_vector_resize n v : 0 ≤ n → size_of (vector_resize n v) = n.
Proof. intros. unfold size_of, vector_resize. rewrite length_resize. lia. Qed.

Lemma write_spec fs name pos content buf count :
  fs !! name = Some content →
  0 ≤ pos ≤ size_of content →
  size_of buf = count →
  write fs {| fd_name := name; fd_pos := pos |} buf count =
    (<[name := take (Z.to_nat pos) content ++ buf ++
               drop (Z.to_nat (pos + count)) content]> fs,
     {| fd_name := name; fd_pos := pos + count |}, count).
Proof.
  intros Hfs Hpos Hcount. unfold write. simpl. rewrite Hfs.
  rewrite (take_ge buf) by (unfold size_of in *; lia). rewrite Hcount.
  replace (Z.to_nat pos - length content)%nat with 0%nat
    by (unfold size_of in *; lia).
  replace (Z.to_nat pos + length buf)%nat with (Z.to_nat (pos + count))
    by (unfold size_of in *; lia).
  done.
Qed.

Lemma read_spec fs name pos content count :
  fs !! name = Some content →
  0 ≤ pos → 0 ≤ count → pos + count ≤ size_of content →
  read fs {| fd_name := name; fd_pos := pos |} count =
    (take (Z.to_nat count) (drop (Z.to_nat pos) content),
     {| fd_name := name; fd_pos := pos + count |}).
Proof.
  intros Hfs Hpos Hcount Hle. unfold read. simpl. rewrite Hfs.
  do 3 f_equal. unfold size_of in *. rewrite length_take, length_drop. lia.
Qed.

(** ** [fillFileWithProperData] *)

(** The loop writes the pattern of the offsets [currentOffset ..
    currentOffset + size) at the position of the descriptor, whatever the
    size of the buffer is, as long as it is not empty. *)
Lemma write_loop_spec name fuel : ∀ fs content pos size currentOffset buffer,
  fs !! name = Some content →
  0 ≤ pos ≤ size_of content →
  0 ≤ currentOffset → 0 ≤ size → currentOffset + size ≤ OFF_MAX →
  (0 < size → 0 < size_of buffer) →
  (Z.to_nat size ≤ fuel)%nat →
  write_loop fuel fs {| fd_name := name; fd_pos := pos |} size currentOffset
    buffer =
  Ret (<[name := take (Z.to_nat pos) content ++ pattern currentOffset size ++
                 drop (Z.to_nat (pos + size)) content]> fs).
Proof.
  induction fuel as [|fuel IH];
    intros fs content pos size off buffer Hfs Hpos Hoff Hsize Hmax Hbuf Hfuel.
  - assert (size = 0) as -> by lia.
    cbn [write_loop]. rewrite bool_decide_eq_false_2 by lia.
    rewrite pattern_nil, Z.add_0_r, app_nil_l, take_drop by lia.
    by rewrite insert_id.
  - cbn [write_loop]. case_bool_decide as Hpositive; cycle 1.
    { assert (size = 0) as -> by lia.
      rewrite pattern_nil, Z.add_0_r, app_nil_l, take_drop by lia.
      by rewrite insert_id. }
    set (n := if bool_decide (size > size_of buffer) then size_of buffer else size).
    assert (Hn : 0 < n ≤ size) by (subst n; case_bool_decide; lia).
    rewrite fillBuffer_spec, size_of_vector_resize;
      [| lia | lia | rewrite size_of_vector_resize by lia; int_arith ].
    simpl.
    rewrite (write_spec _ _ _ content) by (done || rewrite size_of_pattern; lia).
    rewrite bool_decide_eq_true_2 by (symmetry; apply s64_small; int_arith).
    simpl.
    rewrite (IH _ _ (pos + n) _ _ _ (lookup_insert_eq _ _ _)); cycle 1.
    { rewrite !size_of_app, size_of_pattern by lia.
      unfold size_of in *. rewrite length_take, length_drop. lia. }
    { int_arith. }
    { int_arith. }
    { revert Hmax. int_arith. }
    { intros _. rewrite size_of_pattern; lia. }
    { revert Hfuel. int_arith. }
    rewrite insert_insert_eq. do 2 f_equal.
    assert (Hl : length (take (Z.to_nat pos) content ++ pattern off n) =
                 Z.to_nat (pos + n)).
    { rewrite length_app, length_take, length_pattern. unfold size_of in *. lia. }
    rewrite !(assoc_L (++)), (take_app_length' _ _ _ (eq_sym Hl)).
    rewrite !(u64_small (size - n)) by int_arith.
    rewrite (pattern_congr (s64 (u64 off + n)) (off + n)) by int_arith.
    replace size with (n + (size - n)) at 3 by lia.
    rewrite (pattern_app off) by lia. rewrite <- !(assoc_L (++)). do 3 f_equal.
    replace (Z.to_nat (pos + n + (size - n))) with
      (Z.to_nat (pos + n) + Z.to_nat (size - n))%nat by lia.
    rewrite !(assoc_L (++)), <- drop_drop, (drop_app_length' _ _ _ (eq_sym Hl)).
    rewrite drop_drop. f_equal. lia.
Qed.

Lemma length_pattern_file size :
  8 ≤ size → length (pattern_file size) = Z.to_nat size.
Proof.
  intros. unfold pattern_file.
  rewrite length_app, length_htobe64, length_pattern. lia.
Qed.

Lemma fillFile_spec blockSize fuel fs name content size :
  0 < blockSize →
  fs !! name = Some content →
  8 ≤ size ≤ OFF_MAX →
  (Z.to_nat (size - 8) ≤ fuel)%nat →
  fillFileWithProperData blockSize fuel fs
    (Some {| fd_name := name; fd_pos := 0 |}) size =
  Ret (<[name := pattern_file size ++ drop (Z.to_nat size) content]> fs).
Proof.
  intros Hbs Hfs Hsize Hfuel. unfold fillFileWithProperData.
  rewrite (bool_decide_eq_true_2 (is_Some _)) by done.
  rewrite (bool_decide_eq_true_2 (8 ≤ size)) by lia.
  cbn [utils_massert mbind outcome_bind].
  rewrite (write_spec _ _ _ content) by (done || unfold size_of; lia).
  rewrite bool_decide_eq_true_2 by done.
  cbn [utils_passert mbind outcome_bind].
  rewrite (write_loop_spec _ _ _ _ 8 _ _ _ (lookup_insert_eq _ _ _)); cycle 1.
  { rewrite !size_of_app. unfold size_of. rewrite length_htobe64. simpl. lia. }
  { lia. }
  { int_arith. }
  { revert Hsize. int_arith. }
  { intros _. rewrite size_of_vector; lia. }
  { rewrite u64_small by int_arith. done. }
  rewrite insert_insert_eq, u64_small by int_arith.
  do 2 f_equal. unfold pattern_file.
  change (take (Z.to_nat 0) content) with (@nil byte).
  change (Z.to_nat (0 + 8)) with 8%nat. cbn [app].
  change (Z.to_nat 8) with (length (htobe64 size)).
  rewrite take_app_length, <- (assoc_L (++)). do 2 f_equal.
  replace (Z.to_nat (8 + (size - 8))) with
    (length (htobe64 size) + Z.to_nat (size - 8))%nat
    by (rewrite length_htobe64; lia).
  rewrite drop_app_add, drop_drop. f_equal. lia.
Qed.

(** [createFile] leaves exactly the pattern file of the requested size. *)
Lemma createFile_spec blockSize fuel fs name size :
  0 < blockSize →
  8 ≤ size ≤ OFF_MAX →
  (Z.to_nat (size - 8) ≤ fuel)%nat →
  createFile blockSize fuel fs name size =
  Ret (<[name := pattern_file size]> fs).
Proof.
  intros Hbs Hsize Hfuel. unfold createFile, open_creat_trunc.
  rewrite bool_decide_eq_true_2 by done. cbn [utils_passert mbind outcome_bind].
  rewrite (fillFile_spec _ _ _ _ []) by (done || apply lookup_insert_eq).
  by rewrite drop_nil, app_nil_r, insert_insert_eq.
Qed.

(** [overwriteFile] leaves the pattern file of the size the file had. *)
Lemma overwriteFile_spec blockSize fuel fs name content :
  0 < blockSize →
  fs !! name = Some content →
  8 ≤ size_of content ≤ OFF_MAX →
  (Z.to_nat (size_of content - 8) ≤ fuel)%nat →
  overwriteFile blockSize fuel fs name =
  Ret (<[name := pattern_file (size_of content)]> fs).
Proof.
  intros Hbs Hfs Hsize Hfuel. unfold overwriteFile, stat, open_existing.
  rewrite Hfs, bool_decide_eq_true_2 by done.
  cbn [utils_passert mbind outcome_bind].
  rewrite u64_s64, u64_small by int_arith.
  rewrite (fillFile_spec _ _ _ _ content) by done.
  rewrite drop_ge by (unfold size_of; lia). by rewrite app_nil_r.
Qed.

(** ** Comparing a chunk *)

Lemma Z_of_byte_inj x y : Z_of_byte x = Z_of_byte y → x = y.
Proof.
  intros Heq. by rewrite <- (byte_of_Z_of_byte x), Heq, byte_of_Z_of_byte.
Qed.

(** [memcmp] returns 0 exactly when the first [n] bytes agree. *)
Lemma memcmp_0_iff n : ∀ a b,
  (n ≤ length a)%nat → (n ≤ length b)%nat →
  memcmp a b n = 0 ↔ take n a = take n b.
Proof.
  induction n as [|n IH]; intros a b Ha Hb; [done|].
  destruct a as [|x a]; [simpl in Ha; lia|].
  destruct b as [|y b]; [simpl in Hb; lia|].
  simpl in *. case_decide as Hxy.
  - subst y. rewrite IH by lia. split; [by intros ->|by intros [= ->]].
  - split; [|by intros [= ? ?]].
    intros Hd. destruct Hxy. apply Z_of_byte_inj. lia.
Qed.

(** A non-zero result of [memcmp] points at a first differing index. *)
Lemma memcmp_nonzero n : ∀ a b,
  memcmp a b n ≠ 0 →
  ∃ j, (j < n)%nat ∧ a !!! j ≠ b !!! j ∧
       ∀ k, (k < j)%nat → a !!! k = b !!! k.
Proof.
  induction n as [|n IH]; intros a b Hne; [exfalso; by apply Hne|].
  destruct a as [|x a]; [done|]. destruct b as [|y b]; [done|].
  simpl in Hne. case_decide as Hxy.
  - subst y. destruct (IH _ _ Hne) as (j & Hj & Hd & Hbefore).
    exists (S j). split_and!; [lia|done|].
    intros [|k] Hk; [done|]. apply Hbefore. lia.
  - exists 0%nat. split_and!; [lia|done|]. intros k Hk. lia.
Qed.

(** The scan stops at the first differing index. *)
Lemma find_corrupted_first error bytesToRead a b n : ∀ i j,
  (i ≤ j < i + n)%nat →
  (∀ k, (i ≤ k < j)%nat → a !!! k = b !!! k) →
  a !!! j ≠ b !!! j →
  find_corrupted n i error bytesToRead a b =
  Throw (invalid_argument (error +:+ mismatch_message j bytesToRead b a)).
Proof.
  induction n as [|n IH]; intros i j Hj Hbefore Hd; [lia|].
  cbn [find_corrupted]. destruct (decide (i = j)) as [->|Hij].
  - by rewrite decide_True.
  - rewrite decide_False by (intros Hne; apply Hne, Hbefore; lia).
    apply IH; [lia| |done]. intros k Hk. apply Hbefore. lia.
Qed.

(** The bytes that the error message shows are a slice of the buffer. *)
Lemma dump_hex_dump buffer i bytesToRead :
  (bytesToRead ≤ length buffer)%nat →
  dump buffer i bytesToRead =
  hex_dump (take (Nat.min bytesToRead (i + 32) - i) (drop i buffer)).
Proof.
  intros Hlen. unfold dump, hex_dump.
  set (k := (Nat.min bytesToRead (i + 32) - i)%nat).
  assert (Hk : (k = 0 ∨ i + k ≤ length buffer)%nat) by lia.
  clearbody k. revert i Hk. induction k as [|k IH]; intros i Hk; [done|].
  destruct Hk as [|Hk]; [lia|].
  destruct (lookup_lt_is_Some_2 buffer i) as [c Hc]; [lia|].
  rewrite (drop_S _ _ _ Hc). cbn [seq foldr take].
  rewrite (list_lookup_total_correct _ _ _ Hc). f_equal.
  apply IH. lia.
Qed.

(** ** [validateFile] *)

(** One turn of the loop, for a descriptor that stands at the offset
    [p = currentOffset] with [size] bytes left in the file. *)
Lemma check_loop_step fuel fs name content error p size ab pb :
  fs !! name = Some content →
  0 ≤ p → 0 < size → p + size = size_of content →
  size_of content ≤ OFF_MAX →
  0 < size_of pb →
  let n := Z.min size (size_of pb) in
  let ab' :=
    take (Z.to_nat n) (drop (Z.to_nat p) content) ++ drop (Z.to_nat n) ab in
  check_loop (S fuel) fs {| fd_name := name; fd_pos := p |} error size p ab pb =
  if bool_decide (memcmp ab' (pattern p n) (Z.to_nat n) = 0)
  then check_loop fuel fs {| fd_name := name; fd_pos := p + n |} error
         (size - n) (p + n) ab' (pattern p n)
  else find_corrupted (Z.to_nat n) 0 error (Z.to_nat n) ab' (pattern p n).
Proof.
  intros Hfs Hp Hsize Hend Hmax Hpb n ab'.
  cbn [check_loop]. rewrite (bool_decide_eq_true_2 (size > 0)) by lia.
  replace (if bool_decide (size > size_of pb) then size_of pb else size)
    with n by (subst n; case_bool_decide; lia).
  assert (Hn : 0 < n ≤ size) by lia.
  rewrite fillBuffer_spec, size_of_vector_resize;
    [| lia | lia | rewrite size_of_vector_resize by lia; int_arith ].
  cbn [mbind outcome_bind].
  rewrite (read_spec _ _ _ content) by (done || lia).
  assert (Hdata : length (take (Z.to_nat n) (drop (Z.to_nat p) content)) =
                  Z.to_nat n).
  { rewrite length_take, length_drop. unfold size_of in *. lia. }
  rewrite Hdata. fold ab'.
  rewrite (bool_decide_eq_true_2 (size_of _ = s64 n)); cycle 1.
  { unfold size_of at 1. rewrite Hdata. rewrite s64_small by int_arith. lia. }
  cbn [utils_passert mbind outcome_bind].
  rewrite (u64_small (size - n)) by int_arith.
  rewrite (u64_small p) by int_arith.
  by rewrite (s64_small (p + n)) by int_arith.
Qed.

(** Lookups in the two buffers of a turn. *)
Lemma chunk_lookup content (ab : list byte) p n (k : nat) :
  (Z.to_nat p + Z.to_nat n ≤ length content)%nat →
  (k < Z.to_nat n)%nat →
  (take (Z.to_nat n) (drop (Z.to_nat p) content) ++ drop (Z.to_nat n) ab) !! k =
  content !! (Z.to_nat p + k)%nat.
Proof.
  intros Hlen Hk.
  rewrite lookup_app_l by (rewrite length_take, length_drop; lia).
  by rewrite lookup_take_lt, lookup_drop.
Qed.

Lemma chunk_take content (ab : list byte) p n :
  (Z.to_nat p + Z.to_nat n ≤ length content)%nat →
  take (Z.to_nat n)
    (take (Z.to_nat n) (drop (Z.to_nat p) content) ++ drop (Z.to_nat n) ab) =
  take (Z.to_nat n) (drop (Z.to_nat p) content).
Proof.
  intros Hlen. apply take_app_length'. rewrite length_take, length_drop. lia.
Qed.

(** A file whose payload is the pattern passes the content check. *)
Lemma check_loop_ok name fuel : ∀ fs content error p size ab pb,
  fs !! name = Some content →
  0 ≤ p → 0 ≤ size → p + size = size_of content →
  size_of content ≤ OFF_MAX →
  (0 < size → 0 < size_of pb) →
  size_of pb ≤ size_of ab →
  drop (Z.to_nat p) content = pattern p size →
  (Z.to_nat size ≤ fuel)%nat →
  check_loop fuel fs {| fd_name := name; fd_pos := p |} error size p ab pb =
  Ret ().
Proof.
  induction fuel as [|fuel IH];
    intros fs content error p size ab pb Hfs Hp Hsize Hend Hmax Hpb Hab Hpat Hfuel.
  { assert (size = 0) as -> by lia. done. }
  destruct (decide (size = 0)) as [->|Hpos]; [done|].
  rewrite (check_loop_step _ _ _ content) by (done || lia).
  set (n := Z.min size (size_of pb)).
  assert (Hn : 0 < n ≤ size) by lia.
  assert (Hlen : (Z.to_nat p + Z.to_nat n ≤ length content)%nat)
    by (unfold size_of in *; lia).
  assert (Hchunk : take (Z.to_nat n) (drop (Z.to_nat p) content) = pattern p n).
  { rewrite Hpat. apply take_pattern. lia. }
  rewrite bool_decide_eq_true_2; cycle 1.
  { apply memcmp_0_iff.
    - rewrite length_app, length_take, !length_drop. unfold size_of in *. lia.
    - rewrite length_pattern. lia.
    - rewrite chunk_take, Hchunk by done.
      symmetry. apply take_ge. rewrite length_pattern. lia. }
  apply (IH _ content); try done; try lia.
  - intros _. rewrite size_of_pattern; lia.
  - rewrite size_of_app, size_of_pattern by lia.
    unfold size_of in *. rewrite length_take, !length_drop. lia.
  - rewrite Z2Nat.inj_add, <- drop_drop, Hpat by lia.
    apply drop_pattern. lia.
Qed.

Lemma mismatch_message_eq j bytesToRead b a :
  (bytesToRead ≤ length a)%nat → (bytesToRead ≤ length b)%nat →
  mismatch_message j bytesToRead b a =
  data_mismatch (Z.of_nat j)
    (take (Nat.min bytesToRead (j + 32) - j) (drop j b))
    (take (Nat.min bytesToRead (j + 32) - j) (drop j a)).
Proof.
  intros Ha Hb. unfold mismatch_message, data_mismatch.
  by rewrite !dump_hex_dump by done.
Qed.

(** A file whose payload first leaves the pattern at the offset [q] fails
    the content check in the chunk that holds [q]; the message names the
    index of [q] in that chunk and shows the bytes from [q] to the end of
    the chunk, 32 at most. *)
Lemma check_loop_mismatch name fuel :
  ∀ fs content error p size ab pb q bs i n k,
  fs !! name = Some content →
  0 ≤ p → p + size = size_of content →
  size_of content ≤ OFF_MAX →
  size_of pb = bs → 0 < bs ≤ size_of ab →
  p ≤ q < size_of content →
  take (Z.to_nat (q - p)) (drop (Z.to_nat p) content) = pattern p (q - p) →
  content !! Z.to_nat q ≠ Some (pattern_byte q) →
  (Z.to_nat size ≤ fuel)%nat →
  i = (q - p) mod bs →
  n = Z.min bs (size_of content - (q - i)) →
  k = Z.min n (i + 32) - i →
  check_loop fuel fs {| fd_name := name; fd_pos := p |} error size p ab pb =
  Throw (invalid_argument
           (error +:+ data_mismatch i (pattern q k)
                        (take (Z.to_nat k) (drop (Z.to_nat q) content)))).
Proof.
  induction fuel as [|fuel IH];
    intros fs content error p size ab pb q bs i n k
      Hfs Hp Hend Hmax Hbs Hab Hq Hbefore Hbad Hfuel Hi Hn Hk; [lia|].
  rewrite (check_loop_step _ _ _ content) by (done || lia).
  rewrite Hbs. set (n0 := Z.min size bs).
  assert (Hn0 : 0 < n0 ≤ size) by lia.
  assert (Hlen : (Z.to_nat p + Z.to_nat n0 ≤ length content)%nat)
    by (unfold size_of in *; lia).
  set (ab' := take (Z.to_nat n0) (drop (Z.to_nat p) content) ++
              drop (Z.to_nat n0) ab).
  assert (Hab' : (Z.to_nat n0 ≤ length ab')%nat).
  { subst ab'. rewrite length_app, length_take, !length_drop.
    unfold size_of in *. lia. }
  assert (Hgood : ∀ j : nat, Z.of_nat j < q - p →
            content !! (Z.to_nat p + j)%nat =
            Some (pattern_byte (p + Z.of_nat j))).
  { intros j Hj. rewrite <- (pattern_lookup p (q - p)) by done.
    rewrite <- Hbefore, lookup_take_lt, lookup_drop by lia. done. }
  destruct (decide (q - p < n0)) as [Hin|Hout].
  - (* the chunk holds [q] *)
    assert (i = q - p) as -> by (subst i; apply Z.mod_small; lia).
    assert (n = n0) as -> by lia.
    set (j := Z.to_nat (q - p)).
    assert (Hj : ab' !! j = content !! Z.to_nat q).
    { subst ab' j. rewrite chunk_lookup by lia. f_equal. lia. }
    destruct (lookup_lt_is_Some_2 content (Z.to_nat q)) as [c Hc];
      [unfold size_of in *; lia|].
    assert (Hpj : pattern p n0 !! j = Some (pattern_byte q)).
    { subst j. rewrite pattern_lookup by lia. do 2 f_equal. lia. }
    rewrite bool_decide_eq_false_2; cycle 1.
    { rewrite memcmp_0_iff by (done || rewrite length_pattern; lia).
      intros Heq. apply Hbad.
      rewrite <- Hj, <- Hpj, <- (lookup_take_lt ab' (Z.to_nat n0)) by lia.
      rewrite Heq. apply lookup_take_lt. lia. }
    rewrite (find_corrupted_first _ _ _ _ _ 0%nat j); cycle 1.
    { lia. }
    { intros m Hm.
      apply list_lookup_total_correct.
      rewrite (list_lookup_total_correct (pattern p n0) m
                 (pattern_byte (p + Z.of_nat m)))
        by (apply pattern_lookup; lia).
      subst ab'. rewrite chunk_lookup by lia. apply Hgood. lia. }
    { rewrite (list_lookup_total_correct _ _ _ Hpj).
      rewrite (list_lookup_total_correct ab' j c) by (by rewrite Hj).
      intros ->. by apply Hbad. }
    rewrite mismatch_message_eq by (done || rewrite length_pattern; lia).
    replace (Z.of_nat j) with (q - p) by lia.
    replace (Nat.min (Z.to_nat n0) (j + 32) - j)%nat with (Z.to_nat k) by lia.
    assert (Hk' : 0 ≤ k ∧ q - p + k ≤ n0) by lia.
    do 4 f_equal.
    + subst j. rewrite drop_pattern, take_pattern by lia. f_equal. lia.
    + subst ab' j. rewrite drop_app_le, take_app_le
        by (rewrite ?length_drop, length_take, length_drop; lia).
      rewrite take_drop_commute, take_take, Nat.min_l by lia.
      rewrite <- take_drop_commute, drop_drop. do 2 f_equal. lia.
  - (* the chunk is intact *)
    assert (n0 = bs) by lia.
    assert (Hchunk : take (Z.to_nat n0) (drop (Z.to_nat p) content) =
                     pattern p n0).
    { rewrite <- (take_pattern p (q - p)), <- Hbefore, take_take by lia.
      f_equal. lia. }
    rewrite bool_decide_eq_true_2; cycle 1.
    { rewrite memcmp_0_iff by (done || rewrite length_pattern; lia).
      subst ab'. rewrite chunk_take, Hchunk by done.
      symmetry. apply take_ge. rewrite length_pattern. lia. }
    apply (IH _ content _ _ _ _ _ _ bs i n k); try done; try lia.
    + rewrite size_of_pattern; lia.
    + subst ab'. rewrite size_of_app. unfold size_of in *.
      rewrite length_take, !length_drop. lia.
    + replace (Z.to_nat (p + n0)) with (Z.to_nat p + Z.to_nat n0)%nat by lia.
      rewrite <- drop_drop, take_drop_commute.
      replace (Z.to_nat n0 + Z.to_nat (q - (p + n0)))%nat
        with (Z.to_nat (q - p)) by lia.
      rewrite Hbefore, drop_pattern by lia. f_equal. lia.
    + subst i. replace (q - (p + n0)) with (q - p + (-1) * bs) by lia.
      by rewrite Z_mod_plus_full.
Qed.

(** [validateFile] on a file that holds a header: the warning that the
    header check leaves, then the content check, then the final result. *)
Lemma validateFile_header blockSize fuel fs name content :
  fs !! name = Some content →
  8 ≤ size_of content ≤ OFF_MAX →
  validateFile blockSize fuel fs name =
  let expectedSize := be64toh (take 8 content) in
  let error :=
    if bool_decide (expectedSize ≠ size_of content)
    then size_warning expectedSize (size_of content) else "" in
  check_loop fuel fs {| fd_name := name; fd_pos := 8 |} error
    (size_of content - 8) 8 (vector blockSize) (vector blockSize);;
  if bool_decide (error ≠ "")
  then Throw (length_error (error +:+ "The rest of the file is OK"))
  else Ret ().
Proof.
  intros Hfs Hsize. unfold validateFile, open_existing, stat. rewrite Hfs.
  rewrite bool_decide_eq_true_2 by done.
  cbn [utils_passert mbind outcome_bind].
  rewrite (read_spec _ _ _ content) by (done || lia).
  change (Z.to_nat 0) with 0%nat. change (Z.to_nat 8) with 8%nat.
  rewrite drop_0.
  rewrite bool_decide_eq_false_2; cycle 1.
  { unfold size_of in *. rewrite length_take. lia. }
  rewrite u64_s64, !(u64_small (size_of content)) by int_arith.
  rewrite u64_small by int_arith. done.
Qed.

Lemma size_warning_nonempty e a : size_warning e a ≠ "".
Proof. done. Qed.

(** Two lists of one length that differ have a first index where they do. *)
Lemma first_difference (l1 : list byte) : ∀ l2,
  length l1 = length l2 → l1 ≠ l2 →
  ∃ j, (j < length l1)%nat ∧ take j l1 = take j l2 ∧ l1 !! j ≠ l2 !! j.
Proof.
  induction l1 as [|x l1 IH]; intros [|y l2] Hlen Hne;
    [done|done|done|].
  destruct (decide (x = y)) as [->|Hxy].
  - destruct (IH l2) as (j & Hj & Htake & Hd); [by simplify_eq/=|congruence|].
    exists (S j). simpl. split_and!; [lia|by f_equal|done].
  - exists 0%nat. simpl. split_and!; [lia|done|congruence].
Qed.

(** The content check of a file with a header, when the payload is the
    pattern. *)
Lemma validateFile_payload_ok blockSize fuel fs name content :
  0 < blockSize →
  fs !! name = Some content →
  8 ≤ size_of content ≤ OFF_MAX →
  drop 8 content = pattern 8 (size_of content - 8) →
  (Z.to_nat (size_of content - 8) ≤ fuel)%nat →
  validateFile blockSize fuel fs name =
  if bool_decide (be64toh (take 8 content) ≠ size_of content)
  then Throw (length_error
                (size_warning (be64toh (take 8 content)) (size_of content)
                 +:+ "The rest of the file is OK"))
  else Ret ().
Proof.
  intros Hbs Hfs Hsize Hpat Hfuel.
  rewrite (validateFile_header _ _ _ _ content) by done. cbv zeta.
  rewrite (check_loop_ok _ _ _ content);
    try done; try lia; try (rewrite !size_of_vector; lia).
  cbn [mbind outcome_bind].
  destruct (bool_decide (be64toh (take 8 content) ≠ size_of content)).
  - by rewrite bool_decide_eq_true_2 by apply size_warning_nonempty.
  - by rewrite bool_decide_eq_false_2 by (by intros []).
Qed.

(** The content check of a file with a header, when the payload first
    leaves the pattern at the offset [q]. *)
Lemma validateFile_payload_bad blockSize fuel fs name content q :
  0 < blockSize →
  fs !! name = Some content →
  8 ≤ q < size_of content → size_of content ≤ OFF_MAX →
  take (Z.to_nat (q - 8)) (drop 8 content) = pattern 8 (q - 8) →
  content !! Z.to_nat q ≠ Some (pattern_byte q) →
  (Z.to_nat (size_of content - 8) ≤ fuel)%nat →
  let i := (q - 8) mod blockSize in
  let n := Z.min blockSize (size_of content - (q - i)) in
  let k := Z.min n (i + 32) - i in
  validateFile blockSize fuel fs name =
  Throw (invalid_argument
           ((if bool_decide (be64toh (take 8 content) ≠ size_of content)
             then size_warning (be64toh (take 8 content)) (size_of content)
             else "") +:+
            data_mismatch i (pattern q k)
              (take (Z.to_nat k) (drop (Z.to_nat q) content)))).
Proof.
  intros Hbs Hfs Hq Hmax Hbefore Hbad Hfuel i n k.
  rewrite (validateFile_header _ _ _ _ content) by (done || lia). cbv zeta.
  by rewrite (check_loop_mismatch _ _ _ content _ _ _ _ _ q blockSize i n k)
    by (done || lia || rewrite ?size_of_vector; lia).
Qed.

(** * The properties of the specification *)

Lemma size_of_pattern_file size : 8 ≤ size → size_of (pattern_file size) = size.
Proof. intros. unfold size_of. rewrite length_pattern_file; lia. Qed.

Lemma drop_8_pattern_file size : drop 8 (pattern_file size) = pattern 8 (size - 8).
Proof. done. Qed.

Lemma take_8_pattern_file size : take 8 (pattern_file size) = htobe64 size.
Proof. done. Qed.

(** C1. Round trip: for every size from 8 on (up to the largest size a
    file can have) and every positive block size, [createFile] followed by
    [validateFile] on the file just written returns without an error. *)
Theorem createFile_validateFile_roundtrip blockSize fuel fs name size :
  0 < blockSize →
  8 ≤ size ≤ OFF_MAX →
  (Z.to_nat (size - 8) ≤ fuel)%nat →
  ∃ fs', createFile blockSize fuel fs name size = Ret fs' ∧
         validateFile blockSize fuel fs' name = Ret ().
Proof.
  intros Hbs Hsize Hfuel. eexists. split; [by apply createFile_spec|].
  rewrite (validateFile_payload_ok _ _ _ _ (pattern_file size));
    rewrite ?size_of_pattern_file by lia;
    try done; try apply lookup_insert_eq; try lia.
  rewrite take_8_pattern_file, be64toh_htobe64.
  rewrite bool_decide_eq_false_2; [done|].
  intros Hne. apply Hne. apply Z.mod_small. unfold OFF_MAX in *. lia.
Qed.

Lemma createFile_validateFile_roundtrip_witness :
  ∃ fs', createFile 5 21 ∅ "f" 29 = Ret fs' ∧ validateFile 5 21 fs' "f" = Ret ().
Proof.
  apply (createFile_validateFile_roundtrip 5 21 ∅ "f" 29);
    [lia | unfold OFF_MAX; lia | simpl; lia].
Defined.

(** C2. The file that [createFile] writes: its first 8 bytes are the size
    as a big-endian 64-bit integer, payload block [i], at the file offset
    [8 + 8*i], holds [(0x0807060504030201 + 8 + 8*i) mod 2^64] big endian,
    and for the size 24 the file is the 24 bytes of the example. *)
Theorem createFile_content blockSize fuel fs name size :
  0 < blockSize →
  8 ≤ size ≤ OFF_MAX →
  (Z.to_nat (size - 8) ≤ fuel)%nat →
  ∃ content,
    createFile blockSize fuel fs name size = Ret (<[name := content]> fs) ∧
    size_of content = size ∧
    take 8 content = htobe64 size ∧
    be64toh (take 8 content) = size ∧
    (∀ i, 0 ≤ i → 8 + 8 * i + 8 ≤ size →
       payload_block content i =
       htobe64 ((0x0807060504030201 + 8 + 8 * i) mod 2 ^ 64)) ∧
    (size = 24 →
       content =
       [x00; x00; x00; x00; x00; x00; x00; x18;
        x08; x07; x06; x05; x04; x03; x02; x09;
        x08; x07; x06; x05; x04; x03; x02; x11]).
Proof.
  intros Hbs Hsize Hfuel. exists (pattern_file size).
  split_and!.
  - by apply createFile_spec.
  - apply size_of_pattern_file. lia.
  - done.
  - rewrite take_8_pattern_file, be64toh_htobe64.
    apply Z.mod_small. unfold OFF_MAX in *. lia.
  - intros i Hi Hfit. unfold payload_block, pattern_file.
    replace (Z.to_nat (8 + 8 * i)) with
      (length (htobe64 size) + Z.to_nat (8 * i))%nat
      by (rewrite length_htobe64; lia).
    rewrite drop_app_add, drop_pattern by lia.
    change 8%nat with (Z.to_nat 8). rewrite take_pattern by lia.
    rewrite pattern_8_aligned by (Z.div_mod_to_equations; lia).
    unfold pattern_block. do 2 f_equal. lia.
  - by intros ->.
Qed.

Lemma createFile_content_witness :
  ∃ content,
    createFile 65536 16 ∅ "f" 24 = Ret (<["f" := content]> ∅) ∧
    size_of content = 24 ∧
    take 8 content = htobe64 24 ∧
    be64toh (take 8 content) = 24 ∧
    (∀ i, 0 ≤ i → 8 + 8 * i + 8 ≤ 24 →
       payload_block content i =
       htobe64 ((0x0807060504030201 + 8 + 8 * i) mod 2 ^ 64)) ∧
    (24 = 24 →
       content =
       [x00; x00; x00; x00; x00; x00; x00; x18;
        x08; x07; x06; x05; x04; x03; x02; x09;
        x08; x07; x06; x05; x04; x03; x02; x11]).
Proof.
  apply (createFile_content 65536 16 ∅ "f" 24);
    [lia | unfold OFF_MAX; lia | simpl; lia].
Defined.

(** C6. A file shorter than 8 bytes: [validateFile] throws the short-file
    error, which carries the actual size of the file.  The result is the
    same for every block size and with no fuel at all: neither the sizes
    are compared nor the content is checked. *)
Theorem validateFile_short_file blockSize fuel fs name content :
  fs !! name = Some content →
  size_of content < 8 →
  validateFile blockSize fuel fs name =
  Throw (length_error
           ("file too short (" +:+ to_string (size_of content) +:+ " bytes)")).
Proof.
  intros Hfs Hshort. unfold validateFile, open_existing, stat. rewrite Hfs.
  rewrite bool_decide_eq_true_2 by done.
  cbn [utils_passert mbind outcome_bind].
  unfold read. cbn [fd_name fd_pos]. rewrite Hfs.
  change (Z.to_nat 0) with 0%nat. rewrite drop_0.
  rewrite take_ge by (unfold size_of in *; lia).
  rewrite bool_decide_eq_true_2 by lia.
  rewrite u64_s64, u64_small; [done|]. unfold size_of in *. lia.
Qed.

Lemma validateFile_short_file_witness :
  validateFile 65536 0 {[ "f" := [x00; x00; x00; x00] ]} "f" =
  Throw (length_error "file too short (4 bytes)").
Proof.
  apply (validateFile_short_file 65536 0 {[ "f" := [x00; x00; x00; x00] ]} "f"
           [x00; x00; x00; x00]);
    [reflexivity | reflexivity].
Defined.

(** C7. [overwriteFile] on an existing file of [S >= 8] bytes leaves the
    content that [createFile] leaves for the size [S], and the file keeps
    its length. *)
Theorem overwriteFile_as_createFile blockSize fuel fs name content :
  0 < blockSize →
  fs !! name = Some content →
  8 ≤ size_of content ≤ OFF_MAX →
  (Z.to_nat (size_of content - 8) ≤ fuel)%nat →
  ∃ content',
    overwriteFile blockSize fuel fs name = Ret (<[name := content']> fs) ∧
    createFile blockSize fuel fs name (size_of content) =
      Ret (<[name := content']> fs) ∧
    length content' = length content.
Proof.
  intros Hbs Hfs Hsize Hfuel. exists (pattern_file (size_of content)).
  split_and!.
  - by apply overwriteFile_spec.
  - by apply createFile_spec.
  - rewrite length_pattern_file by lia. unfold size_of. lia.
Qed.

Lemma overwriteFile_as_createFile_witness :
  ∃ content',
    overwriteFile 4 5 {[ "f" := replicate 13 xff ]} "f" =
      Ret (<["f" := content']> {[ "f" := replicate 13 xff ]}) ∧
    createFile 4 5 {[ "f" := replicate 13 xff ]} "f"
      (size_of (replicate 13 xff)) =
      Ret (<["f" := content']> {[ "f" := replicate 13 xff ]}) ∧
    length content' = length (replicate 13 xff).
Proof.
  apply (overwriteFile_as_createFile 4 5 {[ "f" := replicate 13 xff ]} "f"
           (replicate 13 xff));
    [lia | reflexivity | unfold OFF_MAX, size_of; simpl; lia
    | unfold size_of; simpl; lia].
Defined.

(** C8. The bytes that [fillBufferWithProperData] produces depend only on
    their file offsets: every byte is the byte of its offset in the aligned
    block that holds it, so two calls agree wherever their ranges overlap,
    whether they take the aligned path or the path through the aligned
    superset buffer. *)
Theorem fillBuffer_depends_only_on_offset (b1 b2 : list byte) (o1 o2 : Z) :
  0 ≤ o1 → 0 ≤ o2 →
  size_of b1 < 2 ^ 64 - 16 → size_of b2 < 2 ^ 64 - 16 →
  ∃ r1 r2,
    fillBufferWithProperData b1 o1 = Ret r1 ∧
    fillBufferWithProperData b2 o2 = Ret r2 ∧
    length r1 = length b1 ∧ length r2 = length b2 ∧
    (∀ i : nat, (i < length b1)%nat →
       r1 !! i = Some (pattern_byte (o1 + Z.of_nat i))) ∧
    (∀ i j : nat, (i < length b1)%nat → (j < length b2)%nat →
       o1 + Z.of_nat i = o2 + Z.of_nat j → r1 !! i = r2 !! j).
Proof.
  intros Ho1 Ho2 Hb1 Hb2.
  exists (pattern o1 (size_of b1)), (pattern o2 (size_of b2)).
  split_and!; try (by apply fillBuffer_spec).
  - rewrite length_pattern. unfold size_of. lia.
  - rewrite length_pattern. unfold size_of. lia.
  - intros i Hi. apply pattern_lookup. unfold size_of. lia.
  - intros i j Hi Hj Heq.
    rewrite !pattern_lookup by (unfold size_of; lia). by rewrite Heq.
Qed.

Lemma fillBuffer_depends_only_on_offset_witness :
  ∃ r1 r2,
    fillBufferWithProperData (vector 16) 8 = Ret r1 ∧
    fillBufferWithProperData (vector 5) 13 = Ret r2 ∧
    length r1 = length (vector 16) ∧ length r2 = length (vector 5) ∧
    (∀ i : nat, (i < length (vector 16))%nat →
       r1 !! i = Some (pattern_byte (8 + Z.of_nat i))) ∧
    (∀ i j : nat, (i < length (vector 16))%nat → (j < length (vector 5))%nat →
       8 + Z.of_nat i = 13 + Z.of_nat j → r1 !! i = r2 !! j).
Proof.
  apply (fillBuffer_depends_only_on_offset (vector 16) (vector 5) 8 13);
    [lia | lia | reflexivity | reflexivity].
Defined.

(** C9. The aligned buffer of [16 + (size / 8) * 8] bytes holds the slice
    that is copied out of it: [(offset mod 8) + size] does not exceed its
    length, for every offset, so [memcpy] never reads past its end; for
    the offsets of a file the copy starts inside it and the function
    returns. *)
Theorem alignedBuffer_holds_slice (buffer : list byte) (offset : Z) :
  size_of buffer < 2 ^ 64 - 16 →
  offset mod 8 + size_of buffer ≤ alignedBufferSize (size_of buffer) ∧
  (offset - alignedOffset offset) + size_of buffer ≤
    size_of (vector (alignedBufferSize (size_of buffer))) ∧
  (0 ≤ offset →
     0 ≤ offset - alignedOffset offset ∧
     ∃ r, fillBufferWithProperData buffer offset = Ret r).
Proof.
  intros Hsize.
  assert (Hs : 0 ≤ size_of buffer) by (unfold size_of; lia).
  rewrite alignedBufferSize_small by lia.
  rewrite size_of_vector by (Z.div_mod_to_equations; lia).
  split_and!.
  - Z.div_mod_to_equations; lia.
  - unfold alignedOffset. pose proof (Z.quot_rem' offset 8).
    pose proof (Z.rem_bound_abs offset 8). Z.div_mod_to_equations; lia.
  - intros Ho. rewrite alignedOffset_nonneg by done. split.
    + Z.div_mod_to_equations; lia.
    + eexists. by apply fillBuffer_spec.
Qed.

Lemma alignedBuffer_holds_slice_witness :
  13 mod 8 + size_of (vector 5) ≤ alignedBufferSize (size_of (vector 5)) ∧
  (13 - alignedOffset 13) + size_of (vector 5) ≤
    size_of (vector (alignedBufferSize (size_of (vector 5)))) ∧
  (0 ≤ 13 →
     0 ≤ 13 - alignedOffset 13 ∧
     ∃ r, fillBufferWithProperData (vector 5) 13 = Ret r).
Proof.
  apply (alignedBuffer_holds_slice (vector 5) 13). reflexivity.
Defined.

(** ** The abort after the scan *)

Lemma fillAligned_abort buffer offset msg :
  fillAlignedBufferWithProperData buffer offset = Abort msg →
  msg ≠ no_difference.
Proof.
  unfold fillAlignedBufferWithProperData, utils_massert.
  repeat case_bool_decide; cbn [mbind outcome_bind]; by intros [= <-].
Qed.

Lemma fillBuffer_abort buffer offset msg :
  fillBufferWithProperData buffer offset = Abort msg → msg ≠ no_difference.
Proof.
  unfold fillBufferWithProperData.
  destruct (_ && _); [apply fillAligned_abort|].
  destruct (fillAlignedBufferWithProperData _ _) as [r|e|msg'| |] eqn:Hal;
    cbn [mbind outcome_bind]; try done.
  - unfold memcpy. by case_decide.
  - intros [= <-]. by eapply fillAligned_abort.
Qed.

Lemma find_corrupted_memcmp n error a b :
  memcmp a b n ≠ 0 →
  ∃ i, (i < n)%nat ∧ a !!! i ≠ b !!! i ∧
       find_corrupted n 0 error n a b =
       Throw (invalid_argument (error +:+ mismatch_message i n b a)).
Proof.
  intros Hne. destruct (memcmp_nonzero _ _ _ Hne) as (j & Hj & Hd & Hbefore).
  exists j. split_and!; [done|done|].
  apply find_corrupted_first; [lia| |done].
  intros k Hk. apply Hbefore. lia.
Qed.

Lemma check_loop_no_abort fuel : ∀ fs fd error size currentOffset ab pb,
  check_loop fuel fs fd error size currentOffset ab pb ≠ Abort no_difference.
Proof.
  induction fuel as [|fuel IH]; intros fs fd error size off ab pb;
    cbn [check_loop]; destruct (bool_decide (size > 0)); try done.
  generalize (if bool_decide (size > size_of pb) then size_of pb else size).
  intros n.
  destruct (fillBufferWithProperData _ _) as [r|e|msg| |] eqn:Hfill;
    cbn [mbind outcome_bind]; try done.
  - destruct (read fs fd n) as [data fd'].
    unfold utils_passert.
    destruct (bool_decide (size_of data = s64 n));
      cbn [mbind outcome_bind]; [|done].
    destruct (bool_decide (memcmp _ _ _ = 0)) eqn:Hcmp; [apply IH|].
    apply bool_decide_eq_false_1 in Hcmp.
    destruct (find_corrupted_memcmp _ error _ _ Hcmp) as (i & _ & _ & ->).
    done.
  - intros [= ->]. by eapply fillBuffer_abort.
Qed.

(** C10. The abort after the scan for the corrupted byte cannot be
    reached: when [memcmp] reports a difference in the first [n] bytes,
    the two buffers differ at an index below [n] and the scan throws the
    data-mismatch error there; [validateFile] never ends in that abort. *)
Theorem scan_finds_memcmp_difference n error (a b : list byte) :
  memcmp a b n ≠ 0 →
  (∃ i, (i < n)%nat ∧ a !!! i ≠ b !!! i ∧
        find_corrupted n 0 error n a b =
        Throw (invalid_argument (error +:+ mismatch_message i n b a))) ∧
  (∀ blockSize fuel fs name,
     validateFile blockSize fuel fs name ≠
     Abort "memcmp returned non-zero, but there is no difference").
Proof.
  intros Hne. split; [by apply find_corrupted_memcmp|].
  intros blockSize fuel fs name. unfold validateFile.
  unfold utils_passert. case_bool_decide; cbn [mbind outcome_bind]; [|done].
  destruct (open_existing fs name) as [fd|]; [|done].
  destruct (stat fs name) as [st_size|]; [|done].
  destruct (read fs fd 8) as [header fd'].
  case_bool_decide; [done|].
  pose proof (check_loop_no_abort fuel fs fd'
    (if bool_decide (be64toh header ≠ u64 st_size)
     then "file should be " +:+ to_string (be64toh header) +:+
          " bytes long, but is " +:+ to_string (u64 st_size) +:+
          " bytes long" +:+ newline
     else "")
    (u64 (u64 st_size - 8)) 8 (vector blockSize) (vector blockSize)) as Hloop.
  destruct (check_loop _ _ _ _ _ _ _ _) as [[]|e|msg| |];
    cbn [mbind outcome_bind]; try done.
  by case_bool_decide.
Qed.

Lemma scan_finds_memcmp_difference_witness :
  (∃ i, (i < 3)%nat ∧ [x01; x02; x03] !!! i ≠ [x01; xff; x03] !!! i ∧
        find_corrupted 3 0 "" 3 [x01; x02; x03] [x01; xff; x03] =
        Throw (invalid_argument
                 ("" +:+ mismatch_message i 3 [x01; xff; x03] [x01; x02; x03]))) ∧
  (∀ blockSize fuel fs name,
     validateFile blockSize fuel fs name ≠
     Abort "memcmp returned non-zero, but there is no difference").
Proof.
  apply (scan_finds_memcmp_difference 3 "" [x01; x02; x03] [x01; xff; x03]).
  vm_compute. discriminate.
Defined.

(** ** The truncated tail *)

(** C4, as the specification states it, fails: the file of 21 bytes ends
    with a last payload block of 5 bytes, not of [21 - 8 = 13] bytes. *)
Lemma truncated_tail_not_size_minus_8 :
  createFile 65536 13 ∅ "f" 21 = Ret (<["f" := pattern_file 21]> ∅) ∧
  21 mod 8 ≠ 0 ∧
  size_of (payload_block (pattern_file 21)
             (last_block_index (pattern_file 21))) = 5 ∧
  size_of (payload_block (pattern_file 21)
             (last_block_index (pattern_file 21))) ≠ 21 - 8.
Proof. split_and!; vm_compute; congruence. Qed.

(** C4, amended.  For every size from 8 on that is not a multiple of 8 the
    file that [createFile] writes ends with a truncated last payload block
    of [size mod 8] bytes (this is [size - 8] for the sizes below 16 only),
    which holds the leading bytes of the full big-endian pattern block of
    its offset. *)
Theorem createFile_truncated_tail blockSize fuel fs name size :
  0 < blockSize →
  8 ≤ size ≤ OFF_MAX →
  size mod 8 ≠ 0 →
  (Z.to_nat (size - 8) ≤ fuel)%nat →
  ∃ content,
    createFile blockSize fuel fs name size = Ret (<[name := content]> fs) ∧
    size_of content = size ∧
    let last := payload_block content (last_block_index content) in
    drop (Z.to_nat (size - size mod 8)) content = last ∧
    size_of last = size mod 8 ∧
    last = take (Z.to_nat (size mod 8)) (pattern_block (size - size mod 8)) ∧
    (size < 16 → size_of last = size - 8).
Proof.
  intros Hbs Hsize Hmod Hfuel. exists (pattern_file size).
  split; [by apply createFile_spec|].
  split; [apply size_of_pattern_file; lia|].
  set (r := size mod 8).
  assert (Hr : 0 < r < 8 ∧ 8 ≤ size - r ∧ (size - r) mod 8 = 0)
    by (subst r; Z.div_mod_to_equations; lia).
  assert (Hlast : payload_block (pattern_file size)
                    (last_block_index (pattern_file size)) =
                  pattern (size - r) r).
  { unfold payload_block, last_block_index.
    rewrite size_of_pattern_file by lia.
    replace (8 + 8 * ((size - 8 - 1) / 8)) with (size - r)
      by (subst r; Z.div_mod_to_equations; lia).
    unfold pattern_file.
    replace (Z.to_nat (size - r)) with
      (length (htobe64 size) + Z.to_nat (size - r - 8))%nat
      by (rewrite length_htobe64; lia).
    rewrite drop_app_add, drop_pattern by lia.
    replace (8 + (size - r - 8)) with (size - r) by lia.
    replace (size - 8 - (size - r - 8)) with r by lia.
    apply take_ge. rewrite length_pattern. lia. }
  cbv zeta. rewrite Hlast. split_and!.
  - unfold pattern_file.
    replace (Z.to_nat (size - r)) with
      (length (htobe64 size) + Z.to_nat (size - r - 8))%nat
      by (rewrite length_htobe64; lia).
    rewrite drop_app_add, drop_pattern by lia. f_equal; lia.
  - apply size_of_pattern. lia.
  - rewrite <- pattern_8_aligned by lia. symmetry. apply take_pattern. lia.
  - intros Hsmall. rewrite size_of_pattern by lia.
    subst r. Z.div_mod_to_equations; lia.
Qed.

Lemma createFile_truncated_tail_witness :
  ∃ content,
    createFile 4 13 ∅ "f" 21 = Ret (<["f" := content]> ∅) ∧
    size_of content = 21 ∧
    let last := payload_block content (last_block_index content) in
    drop (Z.to_nat (21 - 21 mod 8)) content = last ∧
    size_of last = 21 mod 8 ∧
    last = take (Z.to_nat (21 mod 8)) (pattern_block (21 - 21 mod 8)) ∧
    (21 < 16 → size_of last = 21 - 8).
Proof.
  apply (createFile_truncated_tail 4 13 ∅ "f" 21);
    [lia | unfold OFF_MAX; lia | discriminate | simpl; lia].
Defined.

(** ** Corruption *)

(** C3.  The data-mismatch message does not name the offset of the
    corrupted byte.  [validateFile] prints the index [i] of its scan over
    the chunk that it compares; [currentOffset], the file offset of that
    chunk, is kept up to date but is not added.  With blocks of 4 bytes
    the byte flipped at the file offset 13 (payload offset 5) of the valid
    file of 24 bytes is reported at the offset 1, and so is a byte flipped
    at the file offset 9: the message names neither 13 nor 5 and does not
    tell the two bytes apart. *)
Lemma flipped_byte_reported_in_chunk :
  validateFile 4 16 {[ "f" := <[13%nat := xfc]> (pattern_file 24) ]} "f" =
    Throw (invalid_argument
             ("data mismatch at offset 1. Expected/actual:" +:+ newline +:+
              "03 02 09 " +:+ newline +:+ "fc 02 09 ")) ∧
  validateFile 4 16 {[ "f" := <[9%nat := xf8]> (pattern_file 24) ]} "f" =
    Throw (invalid_argument
             ("data mismatch at offset 1. Expected/actual:" +:+ newline +:+
              "07 06 05 " +:+ newline +:+ "f8 06 05 ")) ∧
  ¬ ∃ o expected actual,
      (o = 13 ∨ o = 5) ∧
      validateFile 4 16 {[ "f" := <[13%nat := xfc]> (pattern_file 24) ]} "f" =
        Throw (invalid_argument (data_mismatch o expected actual)).
Proof.
  assert (Hrun :
    validateFile 4 16 {[ "f" := <[13%nat := xfc]> (pattern_file 24) ]} "f" =
    Throw (invalid_argument
             ("data mismatch at offset 1. Expected/actual:" +:+ newline +:+
              "03 02 09 " +:+ newline +:+ "fc 02 09 ")))
    by (vm_compute; reflexivity).
  split; [exact Hrun|]. split; [vm_compute; reflexivity|].
  intros (o & expected & actual & Ho & Heq). rewrite Hrun in Heq.
  destruct Ho as [-> | ->]; vm_compute in Heq; discriminate Heq.
Qed.

(** When the whole payload is one chunk the index of the scan happens to
    be the payload offset of the byte. *)
Example validateFile_flipped_byte_default :
  validateFile 65536 16 {[ "f" := <[13%nat := xfc]> (pattern_file 24) ]} "f" =
  Throw (invalid_argument
           ("data mismatch at offset 5. Expected/actual:" +:+ newline +:+
            "03 02 09 08 07 06 05 04 03 02 11 " +:+ newline +:+
            "fc 02 09 08 07 06 05 04 03 02 11 ")).
Proof. vm_compute. reflexivity. Qed.

(** ** A header that disagrees with the size of the file *)

(** C5. When the size in the header differs from the size of the file,
    [validateFile] still checks the payload bytes that the file has.  If
    they all match the pattern it throws the size-mismatch error: the
    warning followed by the note that the rest of the file is fine.  If
    they do not, it throws the data-mismatch error with the warning put in
    front of it. *)
Theorem validateFile_size_mismatch blockSize fuel fs name content :
  0 < blockSize →
  fs !! name = Some content →
  8 ≤ size_of content ≤ OFF_MAX →
  be64toh (take 8 content) ≠ size_of content →
  (Z.to_nat (size_of content - 8) ≤ fuel)%nat →
  let warning := size_warning (be64toh (take 8 content)) (size_of content) in
  (drop 8 content = pattern 8 (size_of content - 8) →
   validateFile blockSize fuel fs name =
   Throw (length_error (warning +:+ "The rest of the file is OK"))) ∧
  (drop 8 content ≠ pattern 8 (size_of content - 8) →
   ∃ i expected actual,
     validateFile blockSize fuel fs name =
     Throw (invalid_argument (warning +:+ data_mismatch i expected actual))).
Proof.
  intros Hbs Hfs Hsize Hhdr Hfuel warning. split.
  - intros Hpat. rewrite (validateFile_payload_ok _ _ _ _ content) by done.
    by rewrite bool_decide_eq_true_2.
  - intros Hpat.
    destruct (first_difference (drop 8 content)
                (pattern 8 (size_of content - 8)))
      as (j & Hj & Htake & Hd); [|done|].
    { rewrite length_drop, length_pattern. unfold size_of in *. lia. }
    rewrite length_drop in Hj.
    rewrite lookup_drop, pattern_lookup in Hd by (unfold size_of in *; lia).
    eexists _, _, _.
    rewrite (validateFile_payload_bad _ _ _ _ content (8 + Z.of_nat j));
      try done; try (unfold size_of in *; lia).
    + by rewrite bool_decide_eq_true_2.
    + replace (Z.to_nat (8 + Z.of_nat j - 8)) with j by lia.
      rewrite Htake.
      replace (8 + Z.of_nat j - 8) with (Z.of_nat j) by lia.
      rewrite <- (Nat2Z.id j) at 1. apply take_pattern.
      unfold size_of in *. lia.
    + by replace (Z.to_nat (8 + Z.of_nat j)) with (8 + j)%nat by lia.
Qed.

(** The example of the specification: a header that claims 100 bytes on a
    file of 50 bytes whose 42 payload bytes follow the pattern. *)
Lemma validateFile_size_mismatch_witness :
  validateFile 16 42 {[ "f" := htobe64 100 ++ pattern 8 42 ]} "f" =
  Throw (length_error
           (size_warning
              (be64toh (take 8 (htobe64 100 ++ pattern 8 42)))
              (size_of (htobe64 100 ++ pattern 8 42))
            +:+ "The rest of the file is OK")).
Proof.
  apply (validateFile_size_mismatch 16 42
           {[ "f" := htobe64 100 ++ pattern 8 42 ]} "f"
           (htobe64 100 ++ pattern 8 42));
    [lia | reflexivity | split; discriminate | discriminate
    | vm_compute; lia | reflexivity].
Defined.

Example validateFile_size_mismatch_message :
  validateFile 16 42 {[ "f" := htobe64 100 ++ pattern 8 42 ]} "f" =
  Throw (length_error
           ("file should be 100 bytes long, but is 50 bytes long" +:+
            newline +:+ "The rest of the file is OK")).
Proof. vm_compute. reflexivity. Qed.

Example validateFile_size_mismatch_and_corruption :
  validateFile 16 42
    {[ "f" := <[20%nat := xff]> (htobe64 100 ++ pattern 8 42) ]} "f" =
  Throw (invalid_argument
           ("file should be 100 bytes long, but is 50 bytes long" +:+
            newline +:+
            "data mismatch at offset 12. Expected/actual:" +:+ newline +:+
            "04 03 02 11 " +:+ newline +:+ "ff 03 02 11 ")).
Proof. vm_compute. reflexivity. Qed.

(** ** What the hypotheses exclude *)

(** A negative offset that is not a multiple of 8 is no offset of a file:
    the division rounds towards zero, the aligned offset lies above the
    offset and the copy would start before the aligned buffer. *)
Example fillBuffer_negative_offset :
  alignedOffset (-5) = 0 ∧
  fillBufferWithProperData (vector 3) (-5) = OutOfBounds.
Proof. split; reflexivity. Qed.

(** With a block size of 0 the loops make no progress. *)
Example createFile_block_size_0 :
  createFile 0 1000 ∅ "f" 24 = OutOfFuel.
Proof. vm_compute. reflexivity. Qed.

(** [createFile] asserts that the size leaves room for the header. *)
Example createFile_size_below_8 :
  createFile 16 10 ∅ "f" 7 = Abort "size >= sizeof(serializedSize)".
Proof. vm_compute. reflexivity. Qed.

(** * Further properties of the class *)

(** ** Helpers *)

Lemma byte_of_Z_eq z b : z mod 256 = Z_of_byte b → byte_of_Z z = b.
Proof.
  intros Heq. rewrite <- (byte_of_Z_of_byte b), <- Heq.
  unfold byte_of_Z. by rewrite Z.mod_mod.
Qed.

Lemma div_256_step a r c :
  0 ≤ r < 256 → 0 < c → (a * 256 + r) / (256 * c) = a / c.
Proof.
  intros. rewrite <- Z.div_div by lia. f_equal. Z.div_mod_to_equations; lia.
Qed.

(** Eight bytes are the encoding of the number they decode to. *)
Lemma htobe64_be64toh bs : length bs = 8%nat → htobe64 (be64toh bs) = bs.
Proof.
  intros Hlen.
  destruct bs as [|b0 [|b1 [|b2 [|b3 [|b4 [|b5 [|b6 [|b7 [|]]]]]]]]]; try done.
  clear Hlen. unfold htobe64, be64toh. cbn [foldl].
  rewrite !Z.shiftr_div_pow2 by lia.
  pose proof (Z_of_byte_range b0). pose proof (Z_of_byte_range b1).
  pose proof (Z_of_byte_range b2). pose proof (Z_of_byte_range b3).
  pose proof (Z_of_byte_range b4). pose proof (Z_of_byte_range b5).
  pose proof (Z_of_byte_range b6). pose proof (Z_of_byte_range b7).
  change (2 ^ 56) with (256 * (256 * (256 * (256 * (256 * (256 * (256 * 1))))))).
  change (2 ^ 48) with (256 * (256 * (256 * (256 * (256 * (256 * 1)))))).
  change (2 ^ 40) with (256 * (256 * (256 * (256 * (256 * 1))))).
  change (2 ^ 32) with (256 * (256 * (256 * (256 * 1)))).
  change (2 ^ 24) with (256 * (256 * (256 * 1))).
  change (2 ^ 16) with (256 * (256 * 1)).
  change (2 ^ 8) with (256 * 1).
  rewrite !div_256_step, !Z.div_1_r by lia.
  repeat (apply (f_equal2 cons);
          [apply byte_of_Z_eq; Z.div_mod_to_equations; lia|]).
  done.
Qed.

Lemma be64toh_range bs : length bs = 8%nat → 0 ≤ be64toh bs < 2 ^ 64.
Proof.
  intros Hlen. rewrite <- (htobe64_be64toh bs Hlen) at 1 2.
  rewrite be64toh_htobe64. apply Z.mod_pos_bound. lia.
Qed.

Lemma first_payload_mismatch content :
  8 ≤ size_of content →
  drop 8 content ≠ pattern 8 (size_of content - 8) →
  ∃ q, 8 ≤ q < size_of content ∧
       take (Z.to_nat (q - 8)) (drop 8 content) = pattern 8 (q - 8) ∧
       content !! Z.to_nat q ≠ Some (pattern_byte q).
Proof.
  intros Hsize Hpat.
  destruct (first_difference (drop 8 content)
              (pattern 8 (size_of content - 8)))
    as (j & Hj & Htake & Hd); [|done|].
  { rewrite length_drop, length_pattern. unfold size_of in *. lia. }
  rewrite length_drop in Hj.
  rewrite lookup_drop, pattern_lookup in Hd by (unfold size_of in *; lia).
  exists (8 + Z.of_nat j). split_and!; try (unfold size_of in *; lia).
  - replace (Z.to_nat (8 + Z.of_nat j - 8)) with j by lia.
    rewrite Htake.
    replace (8 + Z.of_nat j - 8) with (Z.of_nat j) by lia.
    rewrite <- (Nat2Z.id j) at 1. apply take_pattern.
    unfold size_of in *. lia.
  - by replace (Z.to_nat (8 + Z.of_nat j)) with (8 + j)%nat by lia.
Qed.

Lemma payload_block_pattern_file size i :
  0 ≤ i → 8 + 8 * i + 8 ≤ size →
  payload_block (pattern_file size) i = pattern_block (8 + 8 * i).
Proof.
  intros Hi Hfit. unfold payload_block, pattern_file.
  replace (Z.to_nat (8 + 8 * i)) with
    (length (htobe64 size) + Z.to_nat (8 * i))%nat
    by (rewrite length_htobe64; lia).
  rewrite drop_app_add, drop_pattern by lia.
  change 8%nat with (Z.to_nat 8). rewrite take_pattern by lia.
  apply pattern_8_aligned. Z.div_mod_to_equations; lia.
Qed.

Lemma pattern_file_split content :
  8 ≤ size_of content →
  take 8 content = htobe64 (size_of content) →
  drop 8 content = pattern 8 (size_of content - 8) →
  content = pattern_file (size_of content).
Proof.
  intros Hsize Hhdr Hpat. unfold pattern_file.
  by rewrite <- Hhdr, <- Hpat, take_drop.
Qed.

Lemma validateFile_ok_iff blockSize fuel fs name content :
  0 < blockSize →
  fs !! name = Some content →
  8 ≤ size_of content ≤ OFF_MAX →
  (Z.to_nat (size_of content - 8) ≤ fuel)%nat →
  validateFile blockSize fuel fs name = Ret () ↔
  content = pattern_file (size_of content).
Proof.
  intros Hbs Hfs Hsize Hfuel. split.
  - intros Hok.
    destruct (decide (drop 8 content = pattern 8 (size_of content - 8)))
      as [Hpat|Hpat].
    + rewrite (validateFile_payload_ok _ _ _ _ content) in Hok by done.
      case_bool_decide as Hhdr; [done|].
      apply pattern_file_split; [lia| |done].
      rewrite <- Hhdr. symmetry. apply htobe64_be64toh.
      rewrite length_take. unfold size_of in *. lia.
    + destruct (first_payload_mismatch content) as (q & Hq & Hbefore & Hbad);
        [lia|done|].
      by rewrite (validateFile_payload_bad _ _ _ _ content q) in Hok
        by (done || lia).
  - intros Heq.
    rewrite (validateFile_payload_ok _ _ _ _ content); try done.
    + rewrite bool_decide_eq_false_2; [done|]. intros Hne. apply Hne.
      rewrite Heq at 1. rewrite take_8_pattern_file, be64toh_htobe64.
      apply Z.mod_small. unfold OFF_MAX in *. lia.
    + by rewrite Heq at 1.
Qed.

(** ** What [validateFile] accepts *)

(** X1.  [validateFile] returns without an error on the pattern file of the
    size of the file and on no other content. *)
Theorem validateFile_accepts_iff_pattern_file
    blockSize fuel fs name content :
  0 < blockSize →
  fs !! name = Some content →
  8 ≤ size_of content ≤ OFF_MAX →
  (Z.to_nat (size_of content - 8) ≤ fuel)%nat →
  validateFile blockSize fuel fs name = Ret () ↔
  content = pattern_file (size_of content).
Proof. apply validateFile_ok_iff. Qed.

Lemma validateFile_accepts_iff_pattern_file_witness :
  validateFile 5 20 {[ "f" := pattern_file 21 ]} "f" = Ret () ↔
  pattern_file 21 = pattern_file (size_of (pattern_file 21)).
Proof.
  apply (validateFile_accepts_iff_pattern_file 5 20
           {[ "f" := pattern_file 21 ]} "f" (pattern_file 21));
    [lia | reflexivity | split; discriminate | vm_compute; lia].
Defined.

(** X2.  On a file that exists [validateFile] returns or throws one of its
    two exceptions: no assertion fails, [utils_mabort] is not reached and
    the [memcpy] of [fillBufferWithProperData] stays inside the aligned
    buffer. *)
Theorem validateFile_returns_or_throws blockSize fuel fs name content :
  0 < blockSize →
  fs !! name = Some content →
  size_of content ≤ OFF_MAX →
  (Z.to_nat (size_of content - 8) ≤ fuel)%nat →
  validateFile blockSize fuel fs name = Ret () ∨
  (∃ what, validateFile blockSize fuel fs name = Throw (length_error what)) ∨
  (∃ what, validateFile blockSize fuel fs name =
             Throw (invalid_argument what)).
Proof.
  intros Hbs Hfs Hmax Hfuel.
  destruct (decide (size_of content < 8)) as [Hshort|Hlong].
  - right. left. eexists.
    unfold validateFile, open_existing, stat. rewrite Hfs.
    rewrite bool_decide_eq_true_2 by done.
    cbn [utils_passert mbind outcome_bind].
    unfold read. cbn [fd_name fd_pos]. rewrite Hfs.
    rewrite bool_decide_eq_true_2; [done|].
    change (Z.to_nat 8) with 8%nat. change (Z.to_nat 0) with 0%nat.
    unfold size_of in *. rewrite length_take, length_drop. lia.
  - destruct (decide (drop 8 content = pattern 8 (size_of content - 8)))
      as [Hpat|Hpat].
    + rewrite (validateFile_payload_ok _ _ _ _ content) by (done || lia).
      case_bool_decide; eauto.
    + destruct (first_payload_mismatch content) as (q & Hq & Hbefore & Hbad);
        [lia|done|].
      rewrite (validateFile_payload_bad _ _ _ _ content q) by (done || lia).
      eauto.
Qed.

Lemma validateFile_returns_or_throws_witness :
  validateFile 4 16 {[ "f" := replicate 24 xff ]} "f" = Ret () ∨
  (∃ what, validateFile 4 16 {[ "f" := replicate 24 xff ]} "f" =
             Throw (length_error what)) ∨
  (∃ what, validateFile 4 16 {[ "f" := replicate 24 xff ]} "f" =
             Throw (invalid_argument what)).
Proof.
  apply (validateFile_returns_or_throws 4 16 {[ "f" := replicate 24 xff ]} "f"
           (replicate 24 xff));
    [lia | reflexivity | discriminate | vm_compute; lia].
Defined.

(** X3.  The byte that [validateFile] reports is the first byte of the payload
    that leaves the pattern.  The message names its index in the chunk of
    [blockSize] bytes that holds it and shows the expected and the actual
    bytes from it to the end of the chunk, at least one and at most 32; a
    size warning, if there is one, comes first. *)
Theorem validateFile_reports_first_mismatch
    blockSize fuel fs name content q :
  0 < blockSize →
  fs !! name = Some content →
  8 ≤ q < size_of content → size_of content ≤ OFF_MAX →
  take (Z.to_nat (q - 8)) (drop 8 content) = pattern 8 (q - 8) →
  content !! Z.to_nat q ≠ Some (pattern_byte q) →
  (Z.to_nat (size_of content - 8) ≤ fuel)%nat →
  let i := (q - 8) mod blockSize in
  let n := Z.min blockSize (size_of content - (q - i)) in
  let k := Z.min n (i + 32) - i in
  0 ≤ i < blockSize ∧ 1 ≤ k ≤ 32 ∧ q + k ≤ size_of content ∧
  validateFile blockSize fuel fs name =
  Throw (invalid_argument
           ((if bool_decide (be64toh (take 8 content) ≠ size_of content)
             then size_warning (be64toh (take 8 content)) (size_of content)
             else "") +:+
            data_mismatch i (pattern q k)
              (take (Z.to_nat k) (drop (Z.to_nat q) content)))).
Proof.
  intros Hbs Hfs Hq Hmax Hbefore Hbad Hfuel i n k.
  assert (Hi : 0 ≤ i < blockSize) by (apply Z.mod_pos_bound; lia).
  assert (Hchunk : i ≤ q - 8).
  { subst i. apply Z.mod_le; lia. }
  split_and!; try lia.
  by apply validateFile_payload_bad.
Qed.

Lemma validateFile_reports_first_mismatch_witness :
  let content := htobe64 40 ++ pattern 8 14 ++ replicate 18 x00 in
  let i := (22 - 8) mod 6 in
  let n := Z.min 6 (size_of content - (22 - i)) in
  let k := Z.min n (i + 32) - i in
  0 ≤ i < 6 ∧ 1 ≤ k ≤ 32 ∧ 22 + k ≤ size_of content ∧
  validateFile 6 32 {[ "f" := content ]} "f" =
  Throw (invalid_argument
           ((if bool_decide (be64toh (take 8 content) ≠ size_of content)
             then size_warning (be64toh (take 8 content)) (size_of content)
             else "") +:+
            data_mismatch i (pattern 22 k)
              (take (Z.to_nat k) (drop (Z.to_nat 22) content)))).
Proof.
  apply (validateFile_reports_first_mismatch 6 32
           {[ "f" := htobe64 40 ++ pattern 8 14 ++ replicate 18 x00 ]} "f"
           (htobe64 40 ++ pattern 8 14 ++ replicate 18 x00) 22);
    [lia | reflexivity | split; [discriminate|reflexivity] | discriminate
    | reflexivity | discriminate | vm_compute; lia].
Defined.

Lemma pattern_file_lookup size (q : nat) :
  8 ≤ Z.of_nat q < size →
  pattern_file size !! q = Some (pattern_byte (Z.of_nat q)).
Proof.
  intros Hq. unfold pattern_file.
  rewrite lookup_app_r by (rewrite length_htobe64; lia).
  rewrite length_htobe64, pattern_lookup by lia. do 2 f_equal. lia.
Qed.

Lemma validateFile_pattern_file_ok blockSize fuel fs name size :
  0 < blockSize →
  fs !! name = Some (pattern_file size) →
  8 ≤ size ≤ OFF_MAX →
  (Z.to_nat (size - 8) ≤ fuel)%nat →
  validateFile blockSize fuel fs name = Ret ().
Proof.
  intros Hbs Hfs Hsize Hfuel.
  rewrite (validateFile_payload_ok _ _ _ _ (pattern_file size));
    rewrite ?size_of_pattern_file by lia; try done; try lia.
  rewrite take_8_pattern_file, be64toh_htobe64.
  rewrite bool_decide_eq_false_2; [done|].
  intros Hne. apply Hne. apply Z.mod_small. unfold OFF_MAX in *. lia.
Qed.

(** X4.  Any change of one byte of a valid file is found.  A changed byte of
    the header makes the decoded size differ from the size of the file:
    the size-mismatch error.  A changed byte of the payload gives the
    data-mismatch error for that byte, without a size warning. *)
Theorem validateFile_detects_changed_byte
    blockSize fuel fs name size (q : nat) c :
  0 < blockSize →
  8 ≤ size ≤ OFF_MAX →
  (q < Z.to_nat size)%nat →
  pattern_file size !! q ≠ Some c →
  fs !! name = Some (<[q := c]> (pattern_file size)) →
  (Z.to_nat (size - 8) ≤ fuel)%nat →
  let content := <[q := c]> (pattern_file size) in
  ((q < 8)%nat →
   be64toh (take 8 content) ≠ size ∧
   validateFile blockSize fuel fs name =
   Throw (length_error (size_warning (be64toh (take 8 content)) size +:+
                        "The rest of the file is OK"))) ∧
  ((8 ≤ q)%nat →
   let i := (Z.of_nat q - 8) mod blockSize in
   let n := Z.min blockSize (size - (Z.of_nat q - i)) in
   let k := Z.min n (i + 32) - i in
   validateFile blockSize fuel fs name =
   Throw (invalid_argument
            (data_mismatch i (pattern (Z.of_nat q) k)
               (take (Z.to_nat k) (drop q content))))).
Proof.
  intros Hbs Hsize Hq Hc Hfs Hfuel content.
  assert (Hlen : size_of content = size).
  { subst content. unfold size_of.
    rewrite length_insert, length_pattern_file; lia. }
  split.
  - intros Hhdr.
    assert (Hne : be64toh (take 8 content) ≠ size).
    { intros Heq. apply Hc.
      assert (Hh : htobe64 size = take 8 content).
      { pose proof (htobe64_be64toh (take 8 content)) as Hinv.
        rewrite Heq in Hinv. apply Hinv.
        rewrite length_take. unfold size_of in *. lia. }
      subst content. rewrite take_insert_lt, take_8_pattern_file in Hh by done.
      unfold pattern_file. rewrite lookup_app_l by (by rewrite length_htobe64).
      rewrite Hh. apply list_lookup_insert_eq. by rewrite length_htobe64. }
    split; [done|].
    rewrite (validateFile_payload_ok _ _ _ _ content);
      rewrite ?Hlen; try done; try lia.
    + by rewrite bool_decide_eq_true_2.
    + subst content. by rewrite drop_insert_lt by done.
  - intros Hpay i n k.
    rewrite (validateFile_payload_bad _ _ _ _ content (Z.of_nat q));
      rewrite ?Hlen; try done; try lia.
    + rewrite bool_decide_eq_false_2; [by rewrite Nat2Z.id|].
      intros Hne. apply Hne. subst content.
      rewrite take_insert_ge, take_8_pattern_file, be64toh_htobe64 by done.
      apply Z.mod_small. unfold OFF_MAX in *. lia.
    + subst content. rewrite drop_insert_ge, take_insert_ge by lia.
      rewrite drop_8_pattern_file. apply take_pattern. lia.
    + subst content. rewrite Nat2Z.id.
      rewrite list_lookup_insert_eq by (rewrite length_pattern_file; lia).
      intros [= ->]. apply Hc. apply pattern_file_lookup. lia.
Qed.

Lemma validateFile_detects_changed_byte_witness :
  let content := <[30%nat := xff]> (pattern_file 40) in
  ((30 < 8)%nat →
   be64toh (take 8 content) ≠ 40 ∧
   validateFile 7 32 {[ "f" := content ]} "f" =
   Throw (length_error (size_warning (be64toh (take 8 content)) 40 +:+
                        "The rest of the file is OK"))) ∧
  ((8 ≤ 30)%nat →
   let i := (Z.of_nat 30 - 8) mod 7 in
   let n := Z.min 7 (40 - (Z.of_nat 30 - i)) in
   let k := Z.min n (i + 32) - i in
   validateFile 7 32 {[ "f" := content ]} "f" =
   Throw (invalid_argument
            (data_mismatch i (pattern (Z.of_nat 30) k)
               (take (Z.to_nat k) (drop 30 content))))).
Proof.
  apply (validateFile_detects_changed_byte 7 32
           {[ "f" := <[30%nat := xff]> (pattern_file 40) ]} "f" 40 30 xff);
    [lia | split; discriminate | vm_compute; lia | discriminate
    | reflexivity | vm_compute; lia].
Defined.

(** X5.  A pattern file that lost its end is reported with both sizes: the
    bytes that are left still follow the pattern. *)
Theorem validateFile_truncated_file blockSize fuel fs name size len :
  0 < blockSize →
  8 ≤ len < size → size ≤ OFF_MAX →
  fs !! name = Some (take (Z.to_nat len) (pattern_file size)) →
  (Z.to_nat (len - 8) ≤ fuel)%nat →
  validateFile blockSize fuel fs name =
  Throw (length_error
           (size_warning size len +:+ "The rest of the file is OK")).
Proof.
  intros Hbs Hlen Hmax Hfs Hfuel.
  set (content := take (Z.to_nat len) (pattern_file size)) in *.
  assert (Hcontent : content = htobe64 size ++ pattern 8 (len - 8)).
  { subst content. unfold pattern_file.
    rewrite take_app_ge by (rewrite length_htobe64; lia).
    rewrite length_htobe64.
    replace (Z.to_nat len - 8)%nat with (Z.to_nat (len - 8)) by lia.
    by rewrite take_pattern by lia. }
  assert (Hsz : size_of content = len).
  { rewrite Hcontent, size_of_app, size_of_pattern by lia.
    unfold size_of. rewrite length_htobe64. lia. }
  assert (Hhdr : be64toh (take 8 content) = size).
  { rewrite Hcontent. change 8%nat with (length (htobe64 size)).
    rewrite take_app_length, be64toh_htobe64.
    apply Z.mod_small. unfold OFF_MAX in *. lia. }
  rewrite (validateFile_payload_ok _ _ _ _ content);
    rewrite ?Hsz; try done; try (unfold OFF_MAX in *; lia).
  - by rewrite Hhdr, bool_decide_eq_true_2 by lia.
  - rewrite Hcontent. change 8%nat with (length (htobe64 size)).
    by rewrite drop_app_length.
Qed.

Lemma validateFile_truncated_file_witness :
  validateFile 16 42 {[ "f" := take (Z.to_nat 50) (pattern_file 100) ]} "f" =
  Throw (length_error
           (size_warning 100 50 +:+ "The rest of the file is OK")).
Proof.
  apply (validateFile_truncated_file 16 42
           {[ "f" := take (Z.to_nat 50) (pattern_file 100) ]} "f" 100 50);
    [lia | lia | discriminate | reflexivity | vm_compute; lia].
Defined.

(** X6.  Whether [validateFile] accepts a file does not depend on the block
    size: only the chunks of the comparison, and so the index in a
    data-mismatch message, do. *)
Theorem validateFile_verdict_any_blockSize
    blockSize1 blockSize2 fuel1 fuel2 fs name content :
  0 < blockSize1 → 0 < blockSize2 →
  fs !! name = Some content →
  8 ≤ size_of content ≤ OFF_MAX →
  (Z.to_nat (size_of content - 8) ≤ fuel1)%nat →
  (Z.to_nat (size_of content - 8) ≤ fuel2)%nat →
  validateFile blockSize1 fuel1 fs name = Ret () ↔
  validateFile blockSize2 fuel2 fs name = Ret ().
Proof.
  intros. by rewrite !(validateFile_ok_iff _ _ _ _ content).
Qed.

Lemma validateFile_verdict_any_blockSize_witness :
  validateFile 3 40 {[ "f" := pattern_file 29 ]} "f" = Ret () ↔
  validateFile 64 21 {[ "f" := pattern_file 29 ]} "f" = Ret ().
Proof.
  apply (validateFile_verdict_any_blockSize 3 64 40 21
           {[ "f" := pattern_file 29 ]} "f" (pattern_file 29));
    [lia | lia | reflexivity | split; discriminate
    | vm_compute; lia | vm_compute; lia].
Defined.

(** ** [createFile] and [overwriteFile] *)

(** X7.  The file that [createFile] writes does not depend on the block size. *)
Theorem createFile_any_blockSize blockSize1 blockSize2 fuel1 fuel2 fs name size :
  0 < blockSize1 → 0 < blockSize2 →
  8 ≤ size ≤ OFF_MAX →
  (Z.to_nat (size - 8) ≤ fuel1)%nat →
  (Z.to_nat (size - 8) ≤ fuel2)%nat →
  createFile blockSize1 fuel1 fs name size =
  createFile blockSize2 fuel2 fs name size.
Proof. intros. by rewrite !createFile_spec. Qed.

Lemma createFile_any_blockSize_witness :
  createFile 3 40 ∅ "f" 29 = createFile 64 21 ∅ "f" 29.
Proof.
  apply (createFile_any_blockSize 3 64 40 21 ∅ "f" 29);
    [lia | lia | split; discriminate | vm_compute; lia | vm_compute; lia].
Defined.

(** X8.  [createFile] discards what the file held before and touches no other
    file; the file is left with exactly [size] bytes. *)
Theorem createFile_frame blockSize fuel fs name old size :
  0 < blockSize →
  8 ≤ size ≤ OFF_MAX →
  (Z.to_nat (size - 8) ≤ fuel)%nat →
  ∃ fs',
    createFile blockSize fuel (<[name := old]> fs) name size = Ret fs' ∧
    createFile blockSize fuel fs name size = Ret fs' ∧
    (∃ content, fs' !! name = Some content ∧ size_of content = size) ∧
    ∀ other, other ≠ name → fs' !! other = fs !! other.
Proof.
  intros Hbs Hsize Hfuel. exists (<[name := pattern_file size]> fs).
  split_and!.
  - rewrite createFile_spec by done. by rewrite insert_insert_eq.
  - by apply createFile_spec.
  - eexists. split; [apply lookup_insert_eq|].
    apply size_of_pattern_file. lia.
  - intros other Hother. by apply lookup_insert_ne.
Qed.

Lemma createFile_frame_witness :
  ∃ fs',
    createFile 4 8
      (<["f" := replicate 40 xff]> {[ "g" := [x01; x02] ]}) "f" 13 = Ret fs' ∧
    createFile 4 8 {[ "g" := [x01; x02] ]} "f" 13 = Ret fs' ∧
    (∃ content, fs' !! "f" = Some content ∧ size_of content = 13) ∧
    ∀ other, other ≠ "f" →
      fs' !! other =
      ({[ "g" := [x01; x02] ]} : gmap string (list byte)) !! other.
Proof.
  apply (createFile_frame 4 8 {[ "g" := [x01; x02] ]} "f" (replicate 40 xff) 13);
    [lia | split; discriminate | vm_compute; lia].
Defined.

(** X9.  [overwriteFile] repairs a file: whatever a file of 8 bytes or more
    holds, after [overwriteFile] it passes [validateFile], has the length
    it had, and the other files are as they were. *)
Theorem overwriteFile_then_validateFile blockSize fuel fs name content :
  0 < blockSize →
  fs !! name = Some content →
  8 ≤ size_of content ≤ OFF_MAX →
  (Z.to_nat (size_of content - 8) ≤ fuel)%nat →
  ∃ fs',
    overwriteFile blockSize fuel fs name = Ret fs' ∧
    validateFile blockSize fuel fs' name = Ret () ∧
    (∃ content', fs' !! name = Some content' ∧
                 length content' = length content) ∧
    ∀ other, other ≠ name → fs' !! other = fs !! other.
Proof.
  intros Hbs Hfs Hsize Hfuel.
  exists (<[name := pattern_file (size_of content)]> fs). split_and!.
  - by apply overwriteFile_spec.
  - apply (validateFile_pattern_file_ok _ _ _ _ (size_of content));
      [done|apply lookup_insert_eq|done|done].
  - eexists. split; [apply lookup_insert_eq|].
    rewrite length_pattern_file by lia. unfold size_of. lia.
  - intros other Hother. by apply lookup_insert_ne.
Qed.

Lemma overwriteFile_then_validateFile_witness :
  ∃ fs',
    overwriteFile 5 20 {[ "f" := replicate 21 xff ]} "f" = Ret fs' ∧
    validateFile 5 20 fs' "f" = Ret () ∧
    (∃ content', fs' !! "f" = Some content' ∧
                 length content' = length (replicate 21 xff)) ∧
    ∀ other, other ≠ "f" →
      fs' !! other =
      ({[ "f" := replicate 21 xff ]} : gmap string (list byte)) !! other.
Proof.
  apply (overwriteFile_then_validateFile 5 20 {[ "f" := replicate 21 xff ]} "f"
           (replicate 21 xff));
    [lia | reflexivity | split; discriminate | vm_compute; lia].
Defined.



(** ** Assertions *)

(** X11.  A file that does not exist: [overwriteFile] and [validateFile] abort on
    their assertions; neither throws an exception. *)
Theorem missing_file_aborts blockSize fuel (fs : gmap string (list byte)) name :
  fs !! name = None →
  overwriteFile blockSize fuel fs name =
    Abort "stat(name.c_str(), &fileInformation)" ∧
  validateFile blockSize fuel fs name = Abort "fd != -1".
Proof.
  intros Hfs. unfold overwriteFile, validateFile, stat, open_existing.
  by rewrite Hfs.
Qed.

Lemma missing_file_aborts_witness :
  overwriteFile 16 10 {[ "g" := [x00] ]} "f" =
    Abort "stat(name.c_str(), &fileInformation)" ∧
  validateFile 16 10 {[ "g" := [x00] ]} "f" = Abort "fd != -1".
Proof.
  apply (missing_file_aborts 16 10 {[ "g" := [x00] ]} "f"). reflexivity.
Defined.

(** X12.  A size below 8 leaves no room for the header: [createFile]
    aborts on the assertion of [fillFileWithProperData], whether the file
    is new or not, and so does [overwriteFile] on a file that is shorter
    than 8 bytes. *)
Theorem size_below_8_aborts blockSize fuel fs fs' name content size :
  size < 8 →
  fs' !! name = Some content →
  size_of content < 8 →
  createFile blockSize fuel fs name size =
    Abort "size >= sizeof(serializedSize)" ∧
  overwriteFile blockSize fuel fs' name =
    Abort "size >= sizeof(serializedSize)".
Proof.
  intros Hsize Hfs Hshort. split.
  - unfold createFile, open_creat_trunc, fillFileWithProperData.
    rewrite !(bool_decide_eq_true_2 (is_Some _)) by done.
    by rewrite bool_decide_eq_false_2 by lia.
  - unfold overwriteFile, stat, open_existing, fillFileWithProperData.
    rewrite Hfs, !(bool_decide_eq_true_2 (is_Some _)) by done.
    rewrite u64_s64, u64_small by (unfold size_of in *; lia).
    by rewrite bool_decide_eq_false_2 by lia.
Qed.

Lemma size_below_8_aborts_witness :
  createFile 16 10 ∅ "f" 7 = Abort "size >= sizeof(serializedSize)" ∧
  overwriteFile 16 10 {[ "f" := [x01; x02; x03] ]} "f" =
    Abort "size >= sizeof(serializedSize)".
Proof.
  apply (size_below_8_aborts 16 10 ∅ {[ "f" := [x01; x02; x03] ]} "f"
           [x01; x02; x03] 7);
    [reflexivity | reflexivity | reflexivity].
Defined.

(** ** The assertions of [fillAlignedBufferWithProperData] *)

Lemma length_fill_blocks n : ∀ i o buffer,
  (8 * (i + n) ≤ length buffer)%nat →
  length (fill_blocks n i o buffer) = length buffer.
Proof.
  induction n as [|n IH]; intros i o buffer Hlen; [done|].
  assert (Hstore : length (store_block buffer i
                     (htobe64 (u64 (0x0807060504030201 + u64 o)))) =
                   length buffer).
  { unfold store_block.
    rewrite !length_app, length_take, length_drop, length_htobe64. lia. }
  cbn [fill_blocks]. rewrite IH; [done|]. rewrite Hstore. lia.
Qed.

Lemma fillAligned_returns buffer offset :
  u64 offset mod 8 = 0 → size_of buffer mod 8 = 0 →
  ∃ r, fillAlignedBufferWithProperData buffer offset = Ret r ∧
       length r = length buffer.
Proof.
  intros Ho Hs. unfold fillAlignedBufferWithProperData.
  rewrite !bool_decide_eq_true_2 by done. eexists. split; [done|].
  apply length_fill_blocks. int_arith.
Qed.

(** X13.  [fillAlignedBufferWithProperData] requires both the offset and
    the size of the buffer to be multiples of 8.  The offset is asserted
    first: an offset that is no multiple of 8 aborts on the assertion on
    the offset, and a size that is no multiple of 8 aborts on the assertion
    on the size when the offset passes. *)
Theorem fillAligned_unaligned_aborts buffer offset :
  u64 offset mod 8 ≠ 0 ∨ size_of buffer mod 8 ≠ 0 →
  fillAlignedBufferWithProperData buffer offset =
    Abort (if bool_decide (u64 offset mod 8 = 0)
           then "buffer.size() % sizeof(BlockType) == 0"
           else "offset % sizeof(BlockType) == 0").
Proof.
  intros Hun. unfold fillAlignedBufferWithProperData, utils_massert.
  destruct (decide (u64 offset mod 8 = 0)) as [Ho|Ho].
  - rewrite !(bool_decide_eq_true_2 _ Ho).
    rewrite bool_decide_eq_false_2; [done|]. by destruct Hun.
  - by rewrite !(bool_decide_eq_false_2 _ Ho).
Qed.

Lemma fillAligned_unaligned_aborts_witness :
  fillAlignedBufferWithProperData (vector 12) 16 =
    Abort (if bool_decide (u64 16 mod 8 = 0)
           then "buffer.size() % sizeof(BlockType) == 0"
           else "offset % sizeof(BlockType) == 0").
Proof.
  apply (fillAligned_unaligned_aborts (vector 12) 16). right. discriminate.
Defined.

(** The two assertions at concrete inputs. *)
Example fillAligned_assertion_on_offset :
  fillAlignedBufferWithProperData (vector 12) 13 =
    Abort "offset % sizeof(BlockType) == 0".
Proof. reflexivity. Qed.

Example fillAligned_assertion_on_size :
  fillAlignedBufferWithProperData (vector 12) 16 =
    Abort "buffer.size() % sizeof(BlockType) == 0".
Proof. reflexivity. Qed.

(** X14.  [fillBufferWithProperData] never runs into these assertions, whatever
    the offset and the buffer are: it returns a buffer of the length it
    was given, or the copy leaves the aligned buffer, which takes a
    negative offset or a buffer of [2^64 - 16] bytes or more. *)
Theorem fillBuffer_never_asserts buffer offset :
  (∃ r, fillBufferWithProperData buffer offset = Ret r ∧
        length r = length buffer) ∨
  (fillBufferWithProperData buffer offset = OutOfBounds ∧
   (offset < 0 ∨ 2 ^ 64 - 16 ≤ size_of buffer)).
Proof.
  destruct (decide (0 ≤ offset ∧ size_of buffer < 2 ^ 64 - 16)) as [[Ho Hs]|Hout].
  { left. eexists. split; [by apply fillBuffer_spec|].
    rewrite length_pattern. unfold size_of. lia. }
  unfold fillBufferWithProperData.
  destruct (bool_decide (Z.rem offset 8 = 0) &&
            bool_decide (size_of buffer mod 8 = 0)) eqn:Hal.
  - left. apply andb_prop in Hal as [H1 H2].
    apply bool_decide_eq_true_1 in H1, H2.
    apply fillAligned_returns; [|done].
    pose proof (Z.quot_rem' offset 8). int_arith.
  - destruct (fillAligned_returns
                (vector (alignedBufferSize (size_of buffer)))
                (alignedOffset offset)) as (r & -> & Hr).
    { unfold alignedOffset. generalize (offset ÷ 8). intros. int_arith. }
    { rewrite size_of_vector by (unfold alignedBufferSize; int_arith).
      unfold alignedBufferSize. int_arith. }
    cbn [mbind outcome_bind]. unfold memcpy.
    destruct (decide (0 ≤ offset - alignedOffset offset ∧ _)) as [Hin|Hin].
    + left. eexists. split; [done|].
      rewrite length_app, length_take, !length_drop.
      unfold size_of in *. lia.
    + right. split; [done|lia].
Qed.

(** X15.  The blocks that [fillAlignedBufferWithProperData] writes hold the
    offsets of the blocks plus the constant, modulo [2^64]: the sum wraps
    around, also for the negative offsets of [off_t]. *)
Theorem fillAligned_blocks buffer offset (i : nat) :
  offset mod 8 = 0 → size_of buffer mod 8 = 0 →
  (8 * i + 8 ≤ length buffer)%nat →
  ∃ r, fillAlignedBufferWithProperData buffer offset = Ret r ∧
       length r = length buffer ∧
       take 8 (drop (8 * i) r) =
         htobe64 ((offset + 8 * Z.of_nat i + 0x0807060504030201) mod 2 ^ 64) ∧
       be64toh (take 8 (drop (8 * i) r)) =
         (offset + 8 * Z.of_nat i + 0x0807060504030201) mod 2 ^ 64.
Proof.
  intros Ho Hs Hi. exists (pattern offset (size_of buffer)).
  assert (Hblock : take 8 (drop (8 * i) (pattern offset (size_of buffer))) =
                   pattern_block (offset + 8 * Z.of_nat i)).
  { replace (8 * i)%nat with (Z.to_nat (8 * Z.of_nat i)) by lia.
    rewrite drop_pattern by (unfold size_of; lia).
    change 8%nat with (Z.to_nat 8).
    rewrite take_pattern by (unfold size_of; lia).
    apply pattern_8_aligned. Z.div_mod_to_equations; lia. }
  split_and!.
  - by apply fillAligned_spec.
  - rewrite length_pattern. unfold size_of. lia.
  - done.
  - rewrite Hblock. unfold pattern_block. rewrite be64toh_htobe64.
    apply Z.mod_mod. lia.
Qed.

Lemma fillAligned_blocks_witness :
  ∃ r, fillAlignedBufferWithProperData (vector 16) (-8) = Ret r ∧
       length r = length (vector 16) ∧
       take 8 (drop (8 * 1) r) =
         htobe64 ((-8 + 8 * Z.of_nat 1 + 0x0807060504030201) mod 2 ^ 64) ∧
       be64toh (take 8 (drop (8 * 1) r)) =
         (-8 + 8 * Z.of_nat 1 + 0x0807060504030201) mod 2 ^ 64.
Proof.
  apply (fillAligned_blocks (vector 16) (-8) 1);
    [reflexivity | reflexivity | vm_compute; lia].
Defined.

(** ** Blocks that moved *)

(** X16.  No two full payload blocks of a file that [createFile] wrote are
    equal, so a block that turns up at another offset is a mismatch. *)
Theorem createFile_blocks_distinct blockSize fuel fs name size i j :
  0 < blockSize →
  8 ≤ size ≤ OFF_MAX →
  (Z.to_nat (size - 8) ≤ fuel)%nat →
  0 ≤ i < j → 8 + 8 * j + 8 ≤ size →
  ∃ content,
    createFile blockSize fuel fs name size = Ret (<[name := content]> fs) ∧
    payload_block content i ≠ payload_block content j.
Proof.
  intros Hbs Hsize Hfuel Hij Hfit. exists (pattern_file size).
  split; [by apply createFile_spec|].
  rewrite !payload_block_pattern_file by lia. unfold pattern_block.
  intros Heq. apply (f_equal be64toh) in Heq.
  rewrite !be64toh_htobe64, !Z.mod_mod in Heq by lia.
  revert Heq. int_arith.
Qed.

Lemma createFile_blocks_distinct_witness :
  ∃ content,
    createFile 16 32 ∅ "f" 40 = Ret (<["f" := content]> ∅) ∧
    payload_block content 0 ≠ payload_block content 3.
Proof.
  apply (createFile_blocks_distinct 16 32 ∅ "f" 40 0 3);
    [lia | split; discriminate | vm_compute; lia | lia | lia].
Defined.

(** ** A block size of 0 *)

Lemma write_loop_empty_buffer name fuel : ∀ fs content pos size,
  fs !! name = Some content →
  0 ≤ pos ≤ size_of content →
  0 < size < 2 ^ 64 →
  write_loop fuel fs {| fd_name := name; fd_pos := pos |} size 8 [] = OutOfFuel.
Proof.
  induction fuel as [|fuel IH]; intros fs content pos size Hfs Hpos Hsize;
    cbn [write_loop]; rewrite (bool_decide_eq_true_2 (size > 0)) by lia;
    [done|].
  change (size_of []) with 0. rewrite (bool_decide_eq_true_2 (size > 0)) by lia.
  change (fillBufferWithProperData (vector_resize 0 []) 8) with
    (@Ret (list byte) []).
  cbn [mbind outcome_bind].
  rewrite (write_spec _ _ _ content) by done.
  change (s64 0) with 0. rewrite bool_decide_eq_true_2 by done.
  cbn [utils_passert mbind outcome_bind].
  rewrite Z.sub_0_r, Z.add_0_r, u64_small by lia.
  change (s64 (u64 8 + 0)) with 8.
  apply (IH _ _ _ _ (lookup_insert_eq _ _ _)); [|done].
  cbn [app]. by rewrite take_drop.
Qed.

Lemma check_loop_empty_buffer fuel : ∀ fs fd error size ab,
  0 < size < 2 ^ 64 →
  check_loop fuel fs fd error size 8 ab [] = OutOfFuel.
Proof.
  induction fuel as [|fuel IH]; intros fs fd error size ab Hsize;
    cbn [check_loop]; rewrite (bool_decide_eq_true_2 (size > 0)) by lia;
    [done|].
  change (size_of []) with 0. rewrite (bool_decide_eq_true_2 (size > 0)) by lia.
  change (fillBufferWithProperData (vector_resize 0 []) 8) with
    (@Ret (list byte) []).
  cbn [mbind outcome_bind].
  assert (Hread : read fs fd 0 = ([], fd)).
  { unfold read. destruct (fs !! fd_name fd); [|done].
    change (Z.to_nat 0) with 0%nat. rewrite take_0.
    change (size_of []) with 0. rewrite Z.add_0_r. by destruct fd. }
  rewrite Hread. change (length (@nil byte)) with 0%nat.
  rewrite drop_0. change (s64 0) with 0. change (size_of []) with 0.
  rewrite bool_decide_eq_true_2 by done.
  cbn [utils_passert mbind outcome_bind app].
  change (Z.to_nat 0) with 0%nat. cbn [memcmp].
  rewrite bool_decide_eq_true_2 by done.
  rewrite Z.sub_0_r, u64_small by lia.
  change (s64 (u64 8 + 0)) with 8. by apply IH.
Qed.

(** X17.  With a block size of 0 the loops copy nothing and make no
    progress: whatever the fuel, neither [createFile] of more than 8
    bytes, on a new file or on one that exists, nor [validateFile] of a
    file of more than 8 bytes comes to an end. *)
Theorem blockSize_0_never_finishes fuel fs fs' name content size :
  8 < size < 2 ^ 64 →
  fs' !! name = Some content →
  8 < size_of content ≤ OFF_MAX →
  createFile 0 fuel fs name size = OutOfFuel ∧
  validateFile 0 fuel fs' name = OutOfFuel.
Proof.
  intros Hsize Hfs Hcontent. split.
  - unfold createFile, open_creat_trunc, fillFileWithProperData.
    rewrite !(bool_decide_eq_true_2 (is_Some _)) by done.
    rewrite (bool_decide_eq_true_2 (8 ≤ size)) by lia.
    cbn [utils_passert utils_massert mbind outcome_bind].
    rewrite (write_spec _ _ _ []) by (done || apply lookup_insert_eq).
    rewrite bool_decide_eq_true_2 by done.
    cbn [utils_passert mbind outcome_bind].
    change (vector 0) with (@nil byte).
    apply (write_loop_empty_buffer _ _ _ _ _ _ (lookup_insert_eq _ _ _)).
    + unfold size_of. simpl. lia.
    + rewrite u64_small by lia. lia.
  - rewrite (validateFile_header _ _ _ _ content) by (done || lia). cbv zeta.
    change (vector 0) with (@nil byte).
    rewrite check_loop_empty_buffer; [done|]. unfold OFF_MAX in *. lia.
Qed.

Lemma blockSize_0_never_finishes_witness :
  createFile 0 50 ∅ "f" 24 = OutOfFuel ∧
  validateFile 0 50 {[ "f" := replicate 24 xff ]} "f" = OutOfFuel.
Proof.
  apply (blockSize_0_never_finishes 50 ∅ {[ "f" := replicate 24 xff ]} "f"
           (replicate 24 xff) 24);
    [split; reflexivity | reflexivity | split; [reflexivity|discriminate]].
Defined.
